(** * MCPanel orchestration backend: the container registry and its timers

    A shallow embedding of [server.js]: the in-memory [containers] Map, the
    record objects it points to, the route handlers that mutate them and the
    [setTimeout] callbacks that complete a transition later.

    The routes embedded are the ones that create, read, mutate or delete a
    record: POST /api/servers, GET /api/servers/:id, POST .../start, .../stop,
    .../restart and DELETE /api/servers/:id, as they run once the
    [authenticate] middleware has let the request through.  GET /health and
    GET /api/servers only read the Map (the latter decorates copies of the
    records with [Math.random] figures) and are left out. *)

From Stdlib Require Import PrimFloat NArith Ascii Lia.
From stdpp Require Import gmap strings list.

Set Warnings "-register-all".

Local Open Scope string_scope.
Local Open Scope N_scope.

(** ** JavaScript values that a JSON request body can carry *)

Module Js.

(** A parsed JSON value, or [undefined] for a property that is absent.
    Numbers are IEEE 754 doubles, as in JavaScript. *)
Inductive JsVal :=
| JUndefined
| JNull
| JBool (b : bool)
| JNum (x : float)
| JStr (s : string)
| JArray (items : list JsVal)
| JObject (props : list (string * JsVal)).

(** ToBoolean: [undefined], [null], [false], [+0], [-0], [NaN] and the empty
    string are falsy; everything else, every object and array included, is
    truthy. *)
Definition to_boolean (v : JsVal) : bool :=
  match v with
  | JUndefined | JNull => false
  | JBool b => b
  | JNum x => negb (PrimFloat.eqb x PrimFloat.zero || PrimFloat.is_nan x)
  | JStr s => negb (String.eqb s "")
  | JArray _ | JObject _ => true
  end.

(** [a || b] *)
Definition or (a b : JsVal) : JsVal := if to_boolean a then a else b.

(** Own property [k] of a parsed object: the first binding of [k], or
    [undefined]. *)
Fixpoint own_prop (props : list (string * JsVal)) (k : string) : JsVal :=
  match props with
  | [] => JUndefined
  | (k', v) :: rest => if String.eqb k' k then v else own_prop rest k
  end.

(** Whether a parsed object has an own property [k]. *)
Fixpoint has_own_prop (props : list (string * JsVal)) (k : string) : bool :=
  match props with
  | [] => false
  | (k', _) :: rest => String.eqb k' k || has_own_prop rest k
  end.

(** Whether ToString, which a template literal applies to each value it
    interpolates, returns. Primitives always convert. A parsed object
    converts through [Object.prototype.toString] unless it has an own
    property [toString]: a parsed value is never callable, so the conversion
    then falls back on [valueOf], which does not give a primitive either, and
    throws. An array converts by [join], which converts each of its members
    ([null] and [undefined] to the empty string). *)
Fixpoint can_to_string (v : JsVal) : bool :=
  match v with
  | JUndefined | JNull | JBool _ | JNum _ | JStr _ => true
  | JArray items =>
      (fix all (l : list JsVal) : bool :=
         match l with
         | [] => true
         | x :: rest => can_to_string x && all rest
         end) items
  | JObject props => negb (has_own_prop props "toString")
  end.

(** Exceptions a handler can meet. *)
Inductive Exn := TypeError.

(** Reading property [k] out of [o] while destructuring [const { k } = o]:
    a TypeError on [undefined] and [null]; on a parsed object its own
    property; on a string, number, boolean or array none of the names used
    here exists, so the result is [undefined]. *)
Definition get_prop (o : JsVal) (k : string) : Exn + JsVal :=
  match o with
  | JUndefined | JNull => inl TypeError
  | JObject props => inr (own_prop props k)
  | JBool _ | JNum _ | JStr _ | JArray _ => inr JUndefined
  end.

End Js.

Import Js.

(** ** [Buffer.toString('hex')] *)

Module Hex.

Definition digit (n : N) : ascii :=
  match n with
  | 0 => "0" | 1 => "1" | 2 => "2" | 3 => "3" | 4 => "4" | 5 => "5"
  | 6 => "6" | 7 => "7" | 8 => "8" | 9 => "9" | 10 => "a" | 11 => "b"
  | 12 => "c" | 13 => "d" | 14 => "e" | _ => "f"
  end%char.

(** Two lowercase digits per byte, high nibble first. *)
Fixpoint encode (buf : list Byte.byte) : string :=
  match buf with
  | [] => ""
  | b :: rest =>
      String (digit (Byte.to_N b / 16))
        (String (digit (Byte.to_N b mod 16)) (encode rest))
  end.

(** Reading a digit back. *)
Definition undigit (a : ascii) : option N :=
  let n := N_of_ascii a in
  if (48 <=? n) && (n <=? 57) then Some (n - 48)
  else if (97 <=? n) && (n <=? 102) then Some (n - 87)
  else None.

End Hex.

(** ** Records, the object store and the registry *)

(** Instants are the millisecond readings of the clock; [toISOString] renders
    such a reading as text and is kept out of the model. *)
Abbreviation Time := N.

(** References to record objects. Handlers and timer callbacks hold a record
    by reference, and so does the Map. *)
Abbreviation ref := positive.

(** The object literal built by [createContainer], with the two properties
    that the timer callbacks add later. *)
Record Container := {
  id : string;
  name : JsVal;
  type : JsVal;
  version : JsVal;
  port : JsVal;
  ramMb : JsVal;
  maxPlayers : JsVal;
  status : string;
  createdAt : Time;
  startedAt : option Time;
  stoppedAt : option Time;
}.

(** [c.status = st] *)
Definition set_status (st : string) (c : Container) : Container :=
  {| id := id c; name := name c; type := type c; version := version c;
     port := port c; ramMb := ramMb c; maxPlayers := maxPlayers c;
     status := st; createdAt := createdAt c;
     startedAt := startedAt c; stoppedAt := stoppedAt c |}.

(** [c.startedAt = new Date().toISOString()] *)
Definition set_startedAt (t : Time) (c : Container) : Container :=
  {| id := id c; name := name c; type := type c; version := version c;
     port := port c; ramMb := ramMb c; maxPlayers := maxPlayers c;
     status := status c; createdAt := createdAt c;
     startedAt := Some t; stoppedAt := stoppedAt c |}.

(** [c.stoppedAt = new Date().toISOString()] *)
Definition set_stoppedAt (t : Time) (c : Container) : Container :=
  {| id := id c; name := name c; type := type c; version := version c;
     port := port c; ramMb := ramMb c; maxPlayers := maxPlayers c;
     status := status c; createdAt := createdAt c;
     startedAt := startedAt c; stoppedAt := Some t |}.

(** The argument of [createContainer]. *)
Record Config := {
  cfg_name : JsVal;
  cfg_type : JsVal;
  cfg_version : JsVal;
  cfg_port : JsVal;
  cfg_ramMb : JsVal;
  cfg_maxPlayers : JsVal;
}.

(** The closures handed to [setTimeout]. Each one captured the record object
    [c] of the request that scheduled it. *)
Inductive Task :=
| CreateDone (c : ref)    (* POST /api/servers: looks [c.id] up in the Map *)
| StartDone (c : ref)     (* .../start *)
| StopDone (c : ref)      (* .../stop *)
| RestartMid (c : ref)    (* .../restart, outer callback *)
| RestartEnd (c : ref).   (* .../restart, inner callback *)

Definition task_ref (t : Task) : ref :=
  match t with
  | CreateDone c | StartDone c | StopDone c | RestartMid c | RestartEnd c => c
  end.

(** Lines written by [console.log], by call site. *)
Inductive LogLine :=
| LogCreating (name type version : JsVal)
| LogNowRunning (name : JsVal) (id12 : string)
| LogStarting (name : JsVal)
| LogStarted (name : JsVal)
| LogStopping (name : JsVal)
| LogStopped (name : JsVal)
| LogRestarting (name : JsVal)
| LogRestarted (name : JsVal)
| LogDeleted (name : JsVal).

(** The values that the template literal of a line interpolates. *)
Definition line_values (line : LogLine) : list JsVal :=
  match line with
  | LogCreating name type version => [name; type; version]
  | LogNowRunning name _ | LogStarting name | LogStarted name
  | LogStopping name | LogStopped name | LogRestarting name
  | LogRestarted name | LogDeleted name => [name]
  end.

(** The template literal of the line can be evaluated. *)
Definition loggable (line : LogLine) : bool :=
  forallb can_to_string (line_values line).

(** The process state: the clock, the record objects, the [containers] Map
    from id to record object, the callbacks waiting in [setTimeout] with the
    instant each becomes due, and the console. *)
Record State := {
  now : Time;
  heap : gmap positive Container;
  next_ref : ref;
  containers : gmap string positive;
  timers : list (Time * Task);
  console : list LogLine;
}.

Definition init (t0 : Time) : State :=
  {| now := t0; heap := ∅; next_ref := 1%positive; containers := ∅;
     timers := []; console := [] |}.

Definition with_heap (h : gmap positive Container) (s : State) : State :=
  {| now := now s; heap := h; next_ref := next_ref s;
     containers := containers s; timers := timers s; console := console s |}.

Definition with_containers (m : gmap string positive) (s : State) : State :=
  {| now := now s; heap := heap s; next_ref := next_ref s;
     containers := m; timers := timers s; console := console s |}.

Definition with_timers (l : list (Time * Task)) (s : State) : State :=
  {| now := now s; heap := heap s; next_ref := next_ref s;
     containers := containers s; timers := l; console := console s |}.

(** [new] of an object literal: a reference no one holds yet. *)
Definition alloc (o : Container) (s : State) : ref * State :=
  (next_ref s,
   {| now := now s; heap := <[next_ref s := o]> (heap s);
      next_ref := Pos.succ (next_ref s); containers := containers s;
      timers := timers s; console := console s |}).

(** Assignment to properties of the object behind [c]. [None] stands for a
    reference to no object, which JavaScript cannot produce. *)
Definition update (c : ref) (f : Container → Container) (s : State)
  : option State :=
  o ← heap s !! c; Some (with_heap (<[c := f o]> (heap s)) s).

(** [setTimeout(task, delay)] *)
Definition setTimeout (task : Task) (delay : N) (s : State) : State :=
  with_timers (timers s ++ [(now s + delay, task)]) s.

(** [console.log(line)] *)
Definition console_log (line : LogLine) (s : State) : State :=
  {| now := now s; heap := heap s; next_ref := next_ref s;
     containers := containers s; timers := timers s;
     console := console s ++ [line] |}.

(** [console.log(`...`)]: the template literal is evaluated first, and
    throws when a value in it cannot be converted; then nothing is written. *)
Definition try_log (line : LogLine) (s : State) : Exn + State :=
  if loggable line then inr (console_log line s) else inl TypeError.

(** Reading the object behind [c]; [None] as in [update]. *)
Definition deref (c : ref) (s : State) : option Container := heap s !! c.

(** ** Responses *)

Inductive Body :=
| BError (error : string)                    (* { error: '...' } *)
| BErrMessage (err : Exn)                    (* { error: err.message } *)
| BContainer (container : Container)         (* { success: true, container } *)
| BMessage (success : bool) (message : string)    (* { success, message } *)
| BUncaught (err : Exn).     (* the page of Express's own error handler *)

(** [res.status(code).json(body)]; [res.json(body)] answers 200. *)
Record Response := { code : N; body : Body }.

Definition not_found : Response :=
  {| code := 404; body := BError "Server not found" |}.

Definition ok_message (success : bool) (message : string) : Response :=
  {| code := 200; body := BMessage success message |}.

(** What Express answers when a handler throws and does not catch. *)
Definition uncaught (err : Exn) : Response :=
  {| code := 500; body := BUncaught err |}.

(** ** [createContainer] *)

Definition createContainer (config : Config) (rnd : list Byte.byte) (s : State)
  : ref * State :=
  let containerId := Hex.encode rnd in
  let container :=
    {| id := containerId;
       name := cfg_name config;
       type := Js.or (cfg_type config) (JStr "paper");
       version := Js.or (cfg_version config) (JStr "1.21.1");
       port := Js.or (cfg_port config) (JNum 25565);
       ramMb := Js.or (cfg_ramMb config) (JNum 2048);
       maxPlayers := Js.or (cfg_maxPlayers config) (JNum 20);
       status := "created";
       createdAt := now s;
       startedAt := None;
       stoppedAt := None |} in
  let '(c, s1) := alloc container s in
  (c, with_containers (<[containerId := c]> (containers s1)) s1).

(** The literal that [createContainer] builds. *)
Definition new_container (config : Config) (rnd : list Byte.byte) (t : Time)
  : Container :=
  {| id := Hex.encode rnd;
     name := cfg_name config;
     type := Js.or (cfg_type config) (JStr "paper");
     version := Js.or (cfg_version config) (JStr "1.21.1");
     port := Js.or (cfg_port config) (JNum 25565);
     ramMb := Js.or (cfg_ramMb config) (JNum 2048);
     maxPlayers := Js.or (cfg_maxPlayers config) (JNum 20);
     status := "created";
     createdAt := t;
     startedAt := None;
     stoppedAt := None |}.

(** ** Route handlers *)

(** The six properties destructured from [req.body]; the first one that
    cannot be read throws. *)
Definition destructure (body : JsVal) : Exn + Config :=
  match get_prop body "name", get_prop body "type", get_prop body "version",
        get_prop body "port", get_prop body "ramMb",
        get_prop body "maxPlayers" with
  | inr name, inr type, inr version, inr port, inr ramMb, inr maxPlayers =>
      inr {| cfg_name := name; cfg_type := type; cfg_version := version;
             cfg_port := port; cfg_ramMb := ramMb;
             cfg_maxPlayers := maxPlayers |}
  | inl e, _, _, _, _, _ | _, inl e, _, _, _, _ | _, _, inl e, _, _, _
  | _, _, _, inl e, _, _ | _, _, _, _, inl e, _ | _, _, _, _, _, inl e =>
      inl e
  end.

(** The handlers return [None] only where they would follow a reference to
    no object; [request_total] shows that this does not happen. *)

(** POST /api/servers. [rnd] is what [crypto.randomBytes(16)] returns if the
    handler gets as far as calling it. The response carries the record as it
    is when serialised, which is before any timer runs. *)
Definition post_servers (body : JsVal) (rnd : list Byte.byte) (s : State)
  : option (State * Response) :=
  match destructure body with
  | inl err => Some (s, {| code := 500; body := BErrMessage err |})
  | inr config =>
      if negb (to_boolean (cfg_name config)) then
        Some (s, {| code := 400; body := BError "Server name is required" |})
      else
        let '(c, s1) := createContainer config rnd s in
        let s2 := setTimeout (CreateDone c) 3000 s1 in
        match try_log (LogCreating (cfg_name config) (cfg_type config)
                         (cfg_version config)) s2 with
        | inl err =>
            (* caught by the handler's own [catch] *)
            Some (s2, {| code := 500; body := BErrMessage err |})
        | inr s3 =>
            container ← deref c s3;
            Some (s3, {| code := 201; body := BContainer container |})
        end
  end.

(** GET /api/servers/:id *)
Definition get_server (id : string) (s : State) : option (State * Response) :=
  match containers s !! id with
  | None => Some (s, not_found)
  | Some c =>
      container ← deref c s;
      Some (s, {| code := 200; body := BContainer container |})
  end.

(** POST /api/servers/:id/start *)
Definition post_start (id : string) (s : State) : option (State * Response) :=
  match containers s !! id with
  | None => Some (s, not_found)
  | Some c =>
      container ← deref c s;
      if String.eqb (status container) "running" then
        Some (s, ok_message false "Already running")
      else
        s1 ← update c (set_status "starting") s;
        match try_log (LogStarting (name container)) s1 with
        | inl err => Some (s1, uncaught err)
        | inr s2 =>
            let s3 := setTimeout (StartDone c) 3000 s2 in
            Some (s3, ok_message true "Server starting")
        end
  end.

(** POST /api/servers/:id/stop *)
Definition post_stop (id : string) (s : State) : option (State * Response) :=
  match containers s !! id with
  | None => Some (s, not_found)
  | Some c =>
      container ← deref c s;
      if String.eqb (status container) "stopped" then
        Some (s, ok_message false "Already stopped")
      else
        s1 ← update c (set_status "stopping") s;
        match try_log (LogStopping (name container)) s1 with
        | inl err => Some (s1, uncaught err)
        | inr s2 =>
            let s3 := setTimeout (StopDone c) 2000 s2 in
            Some (s3, ok_message true "Server stopping")
        end
  end.

(** POST /api/servers/:id/restart *)
Definition post_restart (id : string) (s : State) : option (State * Response) :=
  match containers s !! id with
  | None => Some (s, not_found)
  | Some c =>
      container ← deref c s;
      s1 ← update c (set_status "stopping") s;
      match try_log (LogRestarting (name container)) s1 with
      | inl err => Some (s1, uncaught err)
      | inr s2 =>
          let s3 := setTimeout (RestartMid c) 2000 s2 in
          Some (s3, ok_message true "Server restarting")
      end
  end.

(** DELETE /api/servers/:id. The Map forgets the id; the record object
    itself lives on for whoever still holds it. *)
Definition delete_server (id : string) (s : State) : option (State * Response) :=
  match containers s !! id with
  | None => Some (s, not_found)
  | Some c =>
      container ← deref c s;
      let s1 := with_containers (delete id (containers s)) s in
      match try_log (LogDeleted (name container)) s1 with
      | inl err => Some (s1, uncaught err)
      | inr s2 => Some (s2, ok_message true "Server deleted")
      end
  end.

(** ** Timer callbacks *)

(** The end of a callback: its line is logged. A callback has no caller to
    catch what it throws, and the file installs no handler for uncaught
    exceptions, so a throw here ends the process: there is no next state. *)
Definition log_or_exit (line : LogLine) (s : State) : option State :=
  match try_log line s with
  | inl _ => None
  | inr s' => Some s'
  end.

(** The callback of POST /api/servers looks the id up again and does nothing
    when the Map has no record under it; the other callbacks write to the
    object they captured. [None] is the end of the process (or, as in
    [update], a reference to no object). *)
Definition run_task (t : Task) (s : State) : option State :=
  match t with
  | CreateDone container =>
      o ← deref container s;
      match containers s !! id o with
      | Some c =>
          s1 ← update c (set_status "running") s;
          s2 ← update c (set_startedAt (now s1)) s1;
          o2 ← deref c s2;
          log_or_exit
            (LogNowRunning (name o2) (String.substring 0 12 (id o2))) s2
      | None => Some s
      end
  | StartDone container =>
      s1 ← update container (set_status "running") s;
      s2 ← update container (set_startedAt (now s1)) s1;
      o ← deref container s2;
      log_or_exit (LogStarted (name o)) s2
  | StopDone container =>
      s1 ← update container (set_status "stopped") s;
      s2 ← update container (set_stoppedAt (now s1)) s1;
      o ← deref container s2;
      log_or_exit (LogStopped (name o)) s2
  | RestartMid container =>
      s1 ← update container (set_status "starting") s;
      Some (setTimeout (RestartEnd container) 3000 s1)
  | RestartEnd container =>
      s1 ← update container (set_status "running") s;
      s2 ← update container (set_startedAt (now s1)) s1;
      o ← deref container s2;
      log_or_exit (LogRestarted (name o)) s2
  end.

(** ** The event loop *)

(** What can happen next: a request is handled to completion, time passes,
    or a pending callback runs. *)
Inductive Event :=
| PostServers (body : JsVal) (rnd : list Byte.byte)
| GetServer (id : string)
| PostStart (id : string)
| PostStop (id : string)
| PostRestart (id : string)
| DeleteServer (id : string)
| Tick (d : N)
| Fire (k : nat).

(** [crypto.randomBytes(16)] returns sixteen bytes. *)
Definition wf_event (e : Event) : Prop :=
  match e with
  | PostServers _ rnd => length rnd = 16%nat
  | _ => True
  end.

Definition advance (d : N) (s : State) : State :=
  {| now := now s + d; heap := heap s; next_ref := next_ref s;
     containers := containers s; timers := timers s; console := console s |}.

(** [Fire k] runs the [k]-th pending callback once its delay has elapsed;
    a callback runs at most once and never before it is due. *)
Definition fire (k : nat) (s : State) : option State :=
  match timers s !! k with
  | Some (due, task) =>
      if due <=? now s then run_task task (with_timers (delete k (timers s)) s)
      else Some s
  | None => Some s
  end.

Definition with_response (r : State * Response) : State * option Response :=
  (r.1, Some r.2).

(** One event: the next state and, for a request, the response. [None]: the
    process has no next state. [ends_only_by_startup_log] shows that in a
    reachable state this is the case only where the startup callback throws
    on its log line. *)
Definition handle (e : Event) (s : State) : option (State * option Response) :=
  match e with
  | PostServers body rnd => with_response <$> post_servers body rnd s
  | GetServer i => with_response <$> get_server i s
  | PostStart i => with_response <$> post_start i s
  | PostStop i => with_response <$> post_stop i s
  | PostRestart i => with_response <$> post_restart i s
  | DeleteServer i => with_response <$> delete_server i s
  | Tick d => Some (advance d s, None)
  | Fire k => s' ← fire k s; Some (s', None)
  end.

(** A run of events, threading the state. *)
Fixpoint run (es : list Event) (s : State) : option State :=
  match es with
  | [] => Some s
  | e :: rest => r ← handle e s; run rest r.1
  end.

(** The states the process can be in. *)
Inductive reachable : State → Prop :=
| reachable_init t0 : reachable (init t0)
| reachable_step e s s' r :
    reachable s → wf_event e → handle e s = Some (s', r) → reachable s'.

(** ** What the registry shows *)

(** The record found under each id: what GET /api/servers/:id can return. *)
Definition registry (s : State) : gmap string Container :=
  omap (λ c, heap s !! c) (containers s).

Definition valid_status (st : string) : Prop :=
  st = "created" ∨ st = "starting" ∨ st = "running" ∨ st = "stopping"
  ∨ st = "stopped".

(** ** Invariant of the reachable states *)

Record inv (s : State) : Prop := {
  (* the Map files every record object under the object's own id *)
  inv_registry : ∀ i c, containers s !! i = Some c →
                   ∃ o, heap s !! c = Some o ∧ id o = i;
  (* a pending callback holds a record object *)
  inv_timers : ∀ due t, (due, t) ∈ timers s → is_Some (heap s !! task_ref t);
  (* references in use are below the next one to hand out *)
  inv_fresh : ∀ c, is_Some (heap s !! c) → (c < next_ref s)%positive;
  (* every record object, filed or not, has an enumerated status *)
  inv_status : ∀ c o, heap s !! c = Some o → valid_status (status o);
}.


(** A field that is supplied but falsy, taken as if it had been left out. *)
Definition omit_falsy (v : JsVal) : JsVal :=
  if to_boolean v then v else JUndefined.

Definition omit_falsy_fields (config : Config) : Config :=
  {| cfg_name := cfg_name config;
     cfg_type := omit_falsy (cfg_type config);
     cfg_version := omit_falsy (cfg_version config);
     cfg_port := omit_falsy (cfg_port config);
     cfg_ramMb := omit_falsy (cfg_ramMb config);
     cfg_maxPlayers := omit_falsy (cfg_maxPlayers config) |}.

(** The id of the record in a response that carries one. *)
Definition response_id (r : Response) : option string :=
  match body r with
  | BContainer container => Some (id container)
  | _ => None
  end.

(** What the completing callbacks write: the final status and the instant. *)
Definition mark_running (t : Time) (o : Container) : Container :=
  set_startedAt t (set_status "running" o).

Definition mark_stopped (t : Time) (o : Container) : Container :=
  set_stoppedAt t (set_status "stopped" o).




(** ** One step of the process, by what it does to the state *)

(** The ways in which an event can change the clock, the record objects, the
    Map and the queue of callbacks. *)
Inductive effect (s s' : State) : Prop :=
| eff_idle :
    (* reads, refusals, passing time, a callback that is not due *)
    now s ≤ now s' → heap s' = heap s → containers s' = containers s →
    timers s' = timers s → effect s s'
| eff_create config rnd :
    heap s !! next_ref s = None → now s' = now s →
    heap s' = <[next_ref s := new_container config rnd (now s)]> (heap s) →
    containers s' = <[Hex.encode rnd := next_ref s]> (containers s) →
    timers s' = (timers s ++ [(now s + 3000, CreateDone (next_ref s))])%list →
    effect s s'
| eff_transition i c o st task delay :
    containers s !! i = Some c → heap s !! c = Some o →
    can_to_string (name o) = true →
    (st = "starting" ∧ task = StartDone c ∧ delay = 3000)
    ∨ (st = "stopping" ∧ task = StopDone c ∧ delay = 2000)
    ∨ (st = "stopping" ∧ task = RestartMid c ∧ delay = 2000) →
    now s' = now s → heap s' = <[c := set_status st o]> (heap s) →
    containers s' = containers s →
    timers s' = (timers s ++ [(now s + delay, task)])%list →
    effect s s'
| eff_aborted i c o st :
    (* start, stop or restart that throws on its log line *)
    containers s !! i = Some c → heap s !! c = Some o →
    can_to_string (name o) = false →
    st = "starting" ∨ st = "stopping" →
    now s' = now s → heap s' = <[c := set_status st o]> (heap s) →
    containers s' = containers s → timers s' = timers s →
    effect s s'
| eff_delete i c :
    containers s !! i = Some c → now s' = now s → heap s' = heap s →
    containers s' = delete i (containers s) → timers s' = timers s →
    effect s s'
| eff_complete k due task c o f :
    timers s !! k = Some (due, task) → due ≤ now s → heap s !! c = Some o →
    (task = StartDone c ∧ f = mark_running (now s))
    ∨ (task = RestartEnd c ∧ f = mark_running (now s))
    ∨ (task = StopDone c ∧ f = mark_stopped (now s))
    ∨ (∃ c0 o0, task = CreateDone c0 ∧ heap s !! c0 = Some o0
                ∧ containers s !! id o0 = Some c
                ∧ f = mark_running (now s)) →
    now s' = now s → heap s' = <[c := f o]> (heap s) →
    containers s' = containers s → timers s' = delete k (timers s) →
    effect s s'
| eff_startup_gone k due c0 o0 :
    timers s !! k = Some (due, CreateDone c0) → due ≤ now s →
    heap s !! c0 = Some o0 → containers s !! id o0 = None →
    now s' = now s → heap s' = heap s → containers s' = containers s →
    timers s' = delete k (timers s) → effect s s'
| eff_restart_mid k due c o :
    timers s !! k = Some (due, RestartMid c) → due ≤ now s →
    heap s !! c = Some o → now s' = now s →
    heap s' = <[c := set_status "starting" o]> (heap s) →
    containers s' = containers s →
    timers s'
    = (delete k (timers s) ++ [(now s + 3000, RestartEnd c)])%list →
    effect s s'.

(** ** Further invariants *)

(** What the timestamps of a record object say, at clock reading [t]:
    nothing is stamped in the future or before the record was created; a
    record that is [running] has been started, one that is [stopped] has been
    stopped, and one that is still [created] has been neither. *)
Definition stamps_ok (t : Time) (o : Container) : Prop :=
  createdAt o ≤ t
  ∧ (∀ t1, startedAt o = Some t1 → createdAt o ≤ t1 ∧ t1 ≤ t)
  ∧ (∀ t2, stoppedAt o = Some t2 → createdAt o ≤ t2 ∧ t2 ≤ t)
  ∧ (status o = "running" → is_Some (startedAt o))
  ∧ (status o = "stopped" → is_Some (stoppedAt o))
  ∧ (status o = "created" → startedAt o = None ∧ stoppedAt o = None).

(** The fields of a record that no handler and no callback assigns. *)
Definition same_config (o o' : Container) : Prop :=
  id o' = id o ∧ name o' = name o ∧ type o' = type o
  ∧ version o' = version o ∧ port o' = port o ∧ ramMb o' = ramMb o
  ∧ maxPlayers o' = maxPlayers o ∧ createdAt o' = createdAt o.




(** A callback other than a startup callback is queued only for a record
    whose name can be logged: the request logs the name before it calls
    [setTimeout]. *)
Definition timers_loggable (s : State) : Prop :=
  ∀ due t o,
    (due, t) ∈ timers s → (∀ c, t ≠ CreateDone c) →
    heap s !! task_ref t = Some o → can_to_string (name o) = true.

(** The config of a creation can be put in its log line. *)
Definition loggable_config (config : Config) : bool :=
  loggable (LogCreating (cfg_name config) (cfg_type config)
              (cfg_version config)).


(** A lowercase hexadecimal digit. *)
Definition is_lower_hex (a : ascii) : Prop := is_Some (Hex.undigit a).

(** ** Authentication and the health route *)

(** [process.env.API_KEY || 'mcpanel-dev-key']: the environment variable
    when it is set and not empty. *)
Definition API_KEY (env : option string) : string :=
  match env with
  | Some k => if String.eqb k "" then "mcpanel-dev-key" else k
  | None => "mcpanel-dev-key"
  end.

Definition unauthorized : Response :=
  {| code := 401; body := BError "Unauthorized: Invalid API key" |}.

(** [authenticate]: [key] is the [x-api-key] header, if the request has one.
    [Some r] is the refusal sent; [None] is the call of [next()]. *)
Definition authenticate (api_key : string) (key : option string)
  : option Response :=
  match key with
  | None => Some unauthorized
  | Some k =>
      if String.eqb k "" || negb (String.eqb k api_key)
      then Some unauthorized
      else None
  end.

(** The routes mounted under /api. *)
Inductive ApiRoute :=
| CreateServer (body : JsVal) (rnd : list Byte.byte)
| ReadServer (id : string)
| StartServer (id : string)
| StopServer (id : string)
| RestartServer (id : string)
| RemoveServer (id : string).

Definition api_handler (route : ApiRoute) (s : State)
  : option (State * Response) :=
  match route with
  | CreateServer body rnd => post_servers body rnd s
  | ReadServer i => get_server i s
  | StartServer i => post_start i s
  | StopServer i => post_stop i s
  | RestartServer i => post_restart i s
  | RemoveServer i => delete_server i s
  end.

(** A request to /api: [app.use('/api', authenticate)] runs before the
    route's handler. *)
Definition serve_api (env : option string) (key : option string)
    (route : ApiRoute) (s : State) : option (State * Response) :=
  match authenticate (API_KEY env) key with
  | Some refusal => Some (s, refusal)
  | None => api_handler route s
  end.

(** The body of GET /health; [uptime] is the reading of
    [process.uptime()]. *)
Record Health := {
  h_status : string;
  h_uptime : float;
  h_containers : nat;
  h_timestamp : Time;
}.

(** GET /health, which is not under /api and so is not authenticated. *)
Definition get_health (uptime : float) (s : State) : Health :=
  {| h_status := "ok"; h_uptime := uptime;
     h_containers := size (containers s); h_timestamp := now s |}.

(** ** Concrete requests used in the examples *)

Module Scenario.

Definition rnd_a : list Byte.byte := Byte.xab :: repeat Byte.x01 15.

Definition rnd_b : list Byte.byte := Byte.xcd :: repeat Byte.x02 15.

Definition id_a : string := "ab010101010101010101010101010101".

Definition id_b : string := "cd020202020202020202020202020202".

Definition survival : JsVal := JObject [("name", JStr "Survival")].

Definition nameless : JsVal := JObject [("type", JStr "paper")].

Definition falsy_fields : JsVal :=
  JObject [("name", JStr "Creative"); ("type", JStr ""); ("version", JStr "");
           ("port", JNum 0); ("ramMb", JNum 0); ("maxPlayers", JNum 0)].

(** Created, brought up by the startup timer, then asked to stop. *)
Definition stopping_trace : list Event :=
  [PostServers survival rnd_a; Tick 3000; Fire 0; PostStop id_a].

(** Stopped, then deleted while the stop timer is pending and due. *)
Definition stop_delete_trace : list Event :=
  stopping_trace ++ [DeleteServer id_a; Tick 2000].


(** Just created: the startup timer is pending. *)
Definition created_trace : list Event := [PostServers survival rnd_a].

(** The record that [created_trace] builds. *)
Definition record_a : Container :=
  {| id := id_a; name := JStr "Survival"; type := JStr "paper";
     version := JStr "1.21.1"; port := JNum 25565; ramMb := JNum 2048;
     maxPlayers := JNum 20; status := "created"; createdAt := 0;
     startedAt := None; stoppedAt := None |}.

(** The config that [survival] destructures to. *)
Definition survival_config : Config :=
  {| cfg_name := JStr "Survival"; cfg_type := JUndefined;
     cfg_version := JUndefined; cfg_port := JUndefined;
     cfg_ramMb := JUndefined; cfg_maxPlayers := JUndefined |}.

(** The state a trace ends in, from a process started at instant 0. *)
Definition after (es : list Event) : State :=
  default (init 0) (run es (init 0)).

(** A name that is truthy and that no template literal can render: the
    parsed JSON object [{"toString": 1}]. *)
Definition opaque_name : JsVal := JObject [("toString", JNum 1)].

Definition opaque : JsVal := JObject [("name", opaque_name)].

(** A creation with that name: answered 500, the record is registered. *)
Definition opaque_trace : list Event := [PostServers opaque rnd_a].

(** The record that [opaque_trace] builds. *)
Definition record_o : Container :=
  {| id := id_a; name := opaque_name; type := JStr "paper";
     version := JStr "1.21.1"; port := JNum 25565; ramMb := JNum 2048;
     maxPlayers := JNum 20; status := "created"; createdAt := 0;
     startedAt := None; stoppedAt := None |}.

End Scenario.

Implicit Types (s : State) (c : ref) (o : Container) (st : string) (e : Event).

Lemma update_Some s c f o :
  heap s !! c = Some o →
  update c f s = Some (with_heap (<[c := f o]> (heap s)) s).
Proof. intros H. unfold update. by rewrite H. Qed.

Lemma update_inv_Some s c f s' :
  update c f s = Some s' →
  ∃ o, heap s !! c = Some o ∧ s' = with_heap (<[c := f o]> (heap s)) s.
Proof.
  unfold update. destruct (heap s !! c) as [o|] eqn:E; simpl; [|done].
  intros [= <-]. eauto.
Qed.

Lemma inv_init t0 : inv (init t0).
Proof.
  split; simpl.
  - intros i c H. by rewrite lookup_empty in H.
  - intros due t H. by apply elem_of_nil in H.
  - intros c [o H]. by rewrite lookup_empty in H.
  - intros c o H. by rewrite lookup_empty in H.
Qed.

Lemma inv_console_log s line : inv s → inv (console_log line s).
Proof. intros [H1 H2 H3 H4]. by split. Qed.

Lemma inv_advance s d : inv s → inv (advance d s).
Proof. intros [H1 H2 H3 H4]. by split. Qed.

Lemma inv_setTimeout s t d :
  inv s → is_Some (heap s !! task_ref t) → inv (setTimeout t d s).
Proof.
  intros [H1 H2 H3 H4] Ht. split; simpl; try done.
  intros due t' [H|H]%elem_of_app; [by eapply H2|].
  apply list_elem_of_singleton in H. by injection H as _ ->.
Qed.

Lemma inv_drop_timer s k : inv s → inv (with_timers (delete k (timers s)) s).
Proof.
  intros [H1 H2 H3 H4]. split; simpl; try done.
  intros due t H. eapply H2, list_elem_of_delete_inv, H.
Qed.

Lemma inv_forget s i : inv s → inv (with_containers (delete i (containers s)) s).
Proof.
  intros [H1 H2 H3 H4]. split; simpl; try done.
  intros j c [_ H]%lookup_delete_Some. by apply H1.
Qed.

(** Writing to a property other than [id] keeps the invariant, whichever
    object is written to, as long as the status stays an enumerated one. *)
Lemma inv_update s c f s' :
  (∀ o, id (f o) = id o) →
  (∀ o, valid_status (status o) → valid_status (status (f o))) →
  inv s → update c f s = Some s' → inv s'.
Proof.
  intros Hid Hst [H1 H2 H3 H4] (o & Ho & ->)%update_inv_Some.
  split; simpl.
  - intros i c' Hc'. destruct (H1 i c' Hc') as (o' & Ho' & Hi).
    destruct (decide (c = c')) as [<-|Hne].
    + rewrite lookup_insert_eq. exists (f o). split; [done|].
      rewrite Hid. congruence.
    + rewrite lookup_insert_ne by done. eauto.
  - intros due t Ht. apply lookup_insert_is_Some'. right. by eapply H2.
  - intros c' [Hc'|Hc']%lookup_insert_is_Some'; apply H3; [subst|]; eauto.
  - intros c' o' [[<- <-]|[_ Hc']]%lookup_insert_Some; eauto.
Qed.

Lemma update_is_Some s c f s' c' :
  update c f s = Some s' → is_Some (heap s !! c') → is_Some (heap s' !! c').
Proof.
  intros (o & Ho & ->)%update_inv_Some H. simpl.
  apply lookup_insert_is_Some'. by right.
Qed.

Lemma update_total s c f :
  is_Some (heap s !! c) → is_Some (update c f s).
Proof. intros [o Ho]. rewrite (update_Some _ _ _ o) by done. eauto. Qed.


(** ** The invariant holds in every reachable state *)

Lemma try_log_Some line s :
  loggable line = true → try_log line s = inr (console_log line s).
Proof. intros H. unfold try_log. by rewrite H. Qed.

Lemma try_log_throws line s :
  loggable line = false → try_log line s = inl TypeError.
Proof. intros H. unfold try_log. by rewrite H. Qed.

Lemma log_or_exit_Some line s s' :
  log_or_exit line s = Some s' →
  loggable line = true ∧ s' = console_log line s.
Proof.
  unfold log_or_exit, try_log. destruct (loggable line); [|done].
  by intros [= <-].
Qed.

Lemma log_or_exit_loggable line s :
  loggable line = true → log_or_exit line s = Some (console_log line s).
Proof. intros H. unfold log_or_exit. by rewrite try_log_Some. Qed.

Lemma loggable_name (mk : JsVal → LogLine) v :
  line_values (mk v) = [v] → loggable (mk v) = can_to_string v.
Proof. intros H. unfold loggable. rewrite H. simpl. by rewrite andb_true_r. Qed.


Lemma createContainer_eq config rnd s :
  createContainer config rnd s =
  (next_ref s,
   {| now := now s;
      heap := <[next_ref s := new_container config rnd (now s)]> (heap s);
      next_ref := Pos.succ (next_ref s);
      containers := <[Hex.encode rnd := next_ref s]> (containers s);
      timers := timers s; console := console s |}).
Proof. reflexivity. Qed.

Lemma inv_next_ref_unused s : inv s → heap s !! next_ref s = None.
Proof.
  intros H. destruct (heap s !! next_ref s) eqn:E; [|done].
  assert (next_ref s < next_ref s)%positive by (apply (inv_fresh s H); eauto).
  lia.
Qed.

Lemma inv_createContainer config rnd s :
  inv s → inv (createContainer config rnd s).2.
Proof.
  intros Hs. pose proof (inv_next_ref_unused s Hs) as Hnone.
  destruct Hs as [H1 H2 H3 H4]. rewrite createContainer_eq.
  split; simpl.
  - intros i c [[<- <-]|[_ Hc]]%lookup_insert_Some.
    + rewrite lookup_insert_eq. eauto.
    + destruct (H1 i c Hc) as (o & Ho & Hi). exists o. split; [|done].
      rewrite lookup_insert_ne; [done|congruence].
  - intros due t Ht. apply lookup_insert_is_Some'. right. by eapply H2.
  - intros c [->|Hc]%lookup_insert_is_Some'; [lia|].
    apply H3 in Hc. lia.
  - intros c o [[<- <-]|[_ Hc]]%lookup_insert_Some; [by left|eauto].
Qed.

Lemma valid_status_set st o :
  valid_status st → valid_status (status (set_status st o)).
Proof. done. Qed.

Lemma inv_set_status s c st s' :
  valid_status st → inv s → update c (set_status st) s = Some s' → inv s'.
Proof. intros Hst. by apply inv_update. Qed.

Lemma inv_set_startedAt s c t s' :
  inv s → update c (set_startedAt t) s = Some s' → inv s'.
Proof. by apply inv_update. Qed.

Lemma inv_set_stoppedAt s c t s' :
  inv s → update c (set_stoppedAt t) s = Some s' → inv s'.
Proof. by apply inv_update. Qed.

Create HintDb reg.

#[local] Hint Resolve inv_console_log inv_advance inv_drop_timer inv_forget
  inv_set_startedAt inv_set_stoppedAt update_is_Some : reg.
#[local] Hint Extern 1 (valid_status _) => (unfold valid_status; tauto) : reg.

Lemma inv_run_task t s s' :
  inv s → is_Some (heap s !! task_ref t) → run_task t s = Some s' → inv s'.
Proof.
  intros Hs Ht. destruct t as [c|c|c|c|c]; simpl in *; intros H.
  - destruct (deref c s) as [o|] eqn:Ho; simpl in H; [|done].
    destruct (containers s !! id o) as [c'|] eqn:Hc'; [|by injection H as <-].
    destruct (update c' _ s) as [s1|] eqn:E1; simpl in H; [|done].
    destruct (update c' _ s1) as [s2|] eqn:E2; simpl in H; [|done].
    destruct (deref c' s2) as [o2|]; simpl in H; [|done].
    apply log_or_exit_Some in H as [_ ->]. apply inv_console_log.
    eapply inv_set_startedAt; [|done]. eapply inv_set_status; [|done..].
    auto with reg.
  - destruct (update c _ s) as [s1|] eqn:E1; simpl in H; [|done].
    destruct (update c _ s1) as [s2|] eqn:E2; simpl in H; [|done].
    destruct (deref c s2) as [o2|]; simpl in H; [|done].
    apply log_or_exit_Some in H as [_ ->]. apply inv_console_log.
    eapply inv_set_startedAt; [|done]. eapply inv_set_status; [|done..].
    auto with reg.
  - destruct (update c _ s) as [s1|] eqn:E1; simpl in H; [|done].
    destruct (update c _ s1) as [s2|] eqn:E2; simpl in H; [|done].
    destruct (deref c s2) as [o2|]; simpl in H; [|done].
    apply log_or_exit_Some in H as [_ ->]. apply inv_console_log.
    eapply inv_set_stoppedAt; [|done]. eapply inv_set_status; [|done..].
    auto with reg.
  - destruct (update c _ s) as [s1|] eqn:E1; simpl in H; [|done].
    injection H as <-. apply inv_setTimeout.
    + eapply inv_set_status; [|done..]. auto with reg.
    + simpl. eauto with reg.
  - destruct (update c _ s) as [s1|] eqn:E1; simpl in H; [|done].
    destruct (update c _ s1) as [s2|] eqn:E2; simpl in H; [|done].
    destruct (deref c s2) as [o2|]; simpl in H; [|done].
    apply log_or_exit_Some in H as [_ ->]. apply inv_console_log.
    eapply inv_set_startedAt; [|done]. eapply inv_set_status; [|done..].
    auto with reg.
Qed.

Lemma inv_fire k s s' : inv s → fire k s = Some s' → inv s'.
Proof.
  intros Hs. unfold fire.
  destruct (timers s !! k) as [[due t]|] eqn:Hk; [|by intros [= <-]].
  destruct (due <=? now s); [|by intros [= <-]].
  apply inv_run_task; [auto with reg|]. simpl.
  eapply (inv_timers s Hs), list_elem_of_lookup_2, Hk.
Qed.


Lemma inv_post_servers body rnd s s' r :
  inv s → post_servers body rnd s = Some (s', r) → inv s'.
Proof.
  intros Hs. unfold post_servers.
  destruct (destructure body) as [err|config]; [by intros [= <- _]|].
  destruct (negb _); [by intros [= <- _]|].
  pose proof (inv_createContainer config rnd s Hs) as Hc.
  rewrite createContainer_eq in *. simpl in Hc.
  unfold try_log. destruct (loggable _).
  - unfold deref. simpl. rewrite lookup_insert_eq. simpl. intros [= <- _].
    apply inv_console_log, inv_setTimeout; [done|].
    simpl. rewrite lookup_insert_eq. eauto.
  - intros [= <- _]. apply inv_setTimeout; [done|].
    simpl. rewrite lookup_insert_eq. eauto.
Qed.

Lemma inv_get_server i s s' r :
  inv s → get_server i s = Some (s', r) → inv s'.
Proof.
  intros Hs. unfold get_server.
  destruct (containers s !! i) as [c|]; [|by intros [= <- _]].
  destruct (deref c s); simpl; [|done]. by intros [= <- _].
Qed.

Lemma inv_post_start i s s' r :
  inv s → post_start i s = Some (s', r) → inv s'.
Proof.
  intros Hs. unfold post_start.
  destruct (containers s !! i) as [c|]; [|by intros [= <- _]].
  destruct (deref c s) as [o|] eqn:Ho; simpl; [|done].
  destruct (String.eqb _ _); [by intros [= <- _]|].
  destruct (update c _ s) as [s1|] eqn:E1; simpl; [|done].
  assert (inv s1) as Hs1 by (eapply inv_set_status; [|done..]; auto with reg).
  unfold try_log. destruct (loggable _); intros [= <- _]; [|done].
  apply inv_setTimeout.
  - by apply inv_console_log.
  - simpl. eapply update_is_Some; [done|]. unfold deref in Ho. eauto.
Qed.

Lemma inv_post_stop i s s' r :
  inv s → post_stop i s = Some (s', r) → inv s'.
Proof.
  intros Hs. unfold post_stop.
  destruct (containers s !! i) as [c|]; [|by intros [= <- _]].
  destruct (deref c s) as [o|] eqn:Ho; simpl; [|done].
  destruct (String.eqb _ _); [by intros [= <- _]|].
  destruct (update c _ s) as [s1|] eqn:E1; simpl; [|done].
  assert (inv s1) as Hs1 by (eapply inv_set_status; [|done..]; auto with reg).
  unfold try_log. destruct (loggable _); intros [= <- _]; [|done].
  apply inv_setTimeout.
  - by apply inv_console_log.
  - simpl. eapply update_is_Some; [done|]. unfold deref in Ho. eauto.
Qed.

Lemma inv_post_restart i s s' r :
  inv s → post_restart i s = Some (s', r) → inv s'.
Proof.
  intros Hs. unfold post_restart.
  destruct (containers s !! i) as [c|]; [|by intros [= <- _]].
  destruct (deref c s) as [o|] eqn:Ho; simpl; [|done].
  destruct (update c _ s) as [s1|] eqn:E1; simpl; [|done].
  assert (inv s1) as Hs1 by (eapply inv_set_status; [|done..]; auto with reg).
  unfold try_log. destruct (loggable _); intros [= <- _]; [|done].
  apply inv_setTimeout.
  - by apply inv_console_log.
  - simpl. eapply update_is_Some; [done|]. unfold deref in Ho. eauto.
Qed.

Lemma inv_delete_server i s s' r :
  inv s → delete_server i s = Some (s', r) → inv s'.
Proof.
  intros Hs. unfold delete_server.
  destruct (containers s !! i) as [c|]; [|by intros [= <- _]].
  destruct (deref c s) as [o|]; simpl; [|done].
  unfold try_log. destruct (loggable _); intros [= <- _]; auto with reg.
Qed.

Lemma inv_handle e s s' r : inv s → handle e s = Some (s', r) → inv s'.
Proof.
  intros Hs. destruct e as [body rnd|i|i|i|i|i|d|k]; simpl.
  - destruct (post_servers body rnd s) as [[s1 r1]|] eqn:E; simpl; [|done].
    intros [= <- _]. by eapply inv_post_servers.
  - destruct (get_server i s) as [[s1 r1]|] eqn:E; simpl; [|done].
    intros [= <- _]. by eapply inv_get_server.
  - destruct (post_start i s) as [[s1 r1]|] eqn:E; simpl; [|done].
    intros [= <- _]. by eapply inv_post_start.
  - destruct (post_stop i s) as [[s1 r1]|] eqn:E; simpl; [|done].
    intros [= <- _]. by eapply inv_post_stop.
  - destruct (post_restart i s) as [[s1 r1]|] eqn:E; simpl; [|done].
    intros [= <- _]. by eapply inv_post_restart.
  - destruct (delete_server i s) as [[s1 r1]|] eqn:E; simpl; [|done].
    intros [= <- _]. by eapply inv_delete_server.
  - intros [= <- _]. by apply inv_advance.
  - destruct (fire k s) as [s1|] eqn:E; simpl; [|done].
    intros [= <- _]. by eapply inv_fire.
Qed.

Lemma reachable_inv s : reachable s → inv s.
Proof.
  induction 1 as [t0|e s s' r _ IH _ Hh]; [apply inv_init|].
  by eapply inv_handle.
Qed.

Lemma run_reachable es s s' :
  reachable s → Forall wf_event es → run es s = Some s' → reachable s'.
Proof.
  intros Hs Hes. revert s Hs. induction Hes as [|e es He _ IH]; simpl.
  - by intros s Hs [= <-].
  - intros s Hs. destruct (handle e s) as [[s1 r]|] eqn:E; simpl; [|done].
    apply IH. by eapply reachable_step.
Qed.

(** *** No request follows a reference to no object *)

Lemma request_total e s :
  reachable s → (∀ k, e ≠ Fire k) → is_Some (handle e s).
Proof.
  intros Hs%reachable_inv Hnf.
  assert (∀ i c, containers s !! i = Some c → ∃ o, deref c s = Some o) as Hd.
  { intros i c Hc. destruct (inv_registry s Hs i c Hc) as (o & Ho & _). eauto. }
  destruct e as [body rnd|i|i|i|i|i|d|k]; simpl.
  - unfold post_servers. destruct (destructure body) as [err|config]; [eauto|].
    destruct (negb _); [eauto|]. rewrite createContainer_eq.
    unfold try_log. destruct (loggable _); [|eauto].
    unfold deref. simpl. rewrite lookup_insert_eq. simpl. eauto.
  - unfold get_server. destruct (containers s !! i) as [c|] eqn:Hc; [|eauto].
    destruct (Hd i c Hc) as [o ->]. simpl. eauto.
  - unfold post_start. destruct (containers s !! i) as [c|] eqn:Hc; [|eauto].
    destruct (Hd i c Hc) as [o Ho]. rewrite Ho. simpl.
    destruct (String.eqb _ _); [eauto|].
    rewrite (update_Some _ _ _ o) by done. simpl.
    unfold try_log. destruct (loggable _); simpl; eauto.
  - unfold post_stop. destruct (containers s !! i) as [c|] eqn:Hc; [|eauto].
    destruct (Hd i c Hc) as [o Ho]. rewrite Ho. simpl.
    destruct (String.eqb _ _); [eauto|].
    rewrite (update_Some _ _ _ o) by done. simpl.
    unfold try_log. destruct (loggable _); simpl; eauto.
  - unfold post_restart. destruct (containers s !! i) as [c|] eqn:Hc; [|eauto].
    destruct (Hd i c Hc) as [o Ho]. rewrite Ho. simpl.
    rewrite (update_Some _ _ _ o) by done. simpl.
    unfold try_log. destruct (loggable _); simpl; eauto.
  - unfold delete_server. destruct (containers s !! i) as [c|] eqn:Hc; [|eauto].
    destruct (Hd i c Hc) as [o ->]. simpl.
    unfold try_log. destruct (loggable _); simpl; eauto.
  - eauto.
  - by destruct (Hnf k).
Qed.

(** ** What the callbacks do when they run *)

(** The common shape of the completing callbacks: set the status, stamp a
    time, log a line about the record. *)
Lemma complete_eq s c o f (g : Time → Container → Container)
    (line : Container → LogLine) :
  heap s !! c = Some o →
  (s1 ← update c f s; s2 ← update c (g (now s1)) s1; o2 ← deref c s2;
   log_or_exit (line o2) s2)
  = log_or_exit (line (g (now s) (f o)))
      (with_heap (<[c := g (now s) (f o)]> (heap s)) s).
Proof.
  intros Ho. rewrite (update_Some _ _ _ o) by done. simpl.
  rewrite (update_Some _ _ _ (f o)) by (simpl; apply lookup_insert_eq).
  simpl. unfold deref. simpl. rewrite lookup_insert_eq. simpl.
  by rewrite insert_insert_eq.
Qed.

Lemma fire_not_due k s due t :
  timers s !! k = Some (due, t) → now s < due → fire k s = Some s.
Proof.
  intros Hk Hlt. unfold fire. rewrite Hk.
  by destruct (N.leb_spec due (now s)); [lia|].
Qed.

Lemma fire_due k s due t :
  timers s !! k = Some (due, t) → due ≤ now s →
  fire k s = run_task t (with_timers (delete k (timers s)) s).
Proof.
  intros Hk Hle. unfold fire. rewrite Hk.
  by destruct (N.leb_spec due (now s)); [|lia].
Qed.

Lemma run_StartDone s c o :
  heap s !! c = Some o → can_to_string (name o) = true →
  run_task (StartDone c) s
  = Some (console_log (LogStarted (name o))
            (with_heap
               (<[c := set_startedAt (now s) (set_status "running" o)]> (heap s))
               s)).
Proof.
  intros Ho Hn. simpl.
  rewrite (complete_eq s c o (set_status "running")
             (λ t, set_startedAt t) (λ o2, LogStarted (name o2))) by done.
  apply log_or_exit_loggable. by rewrite (loggable_name LogStarted).
Qed.

Lemma run_StopDone s c o :
  heap s !! c = Some o → can_to_string (name o) = true →
  run_task (StopDone c) s
  = Some (console_log (LogStopped (name o))
            (with_heap
               (<[c := set_stoppedAt (now s) (set_status "stopped" o)]> (heap s))
               s)).
Proof.
  intros Ho Hn. simpl.
  rewrite (complete_eq s c o (set_status "stopped")
             (λ t, set_stoppedAt t) (λ o2, LogStopped (name o2))) by done.
  apply log_or_exit_loggable. by rewrite (loggable_name LogStopped).
Qed.

Lemma run_RestartEnd s c o :
  heap s !! c = Some o → can_to_string (name o) = true →
  run_task (RestartEnd c) s
  = Some (console_log (LogRestarted (name o))
            (with_heap
               (<[c := set_startedAt (now s) (set_status "running" o)]> (heap s))
               s)).
Proof.
  intros Ho Hn. simpl.
  rewrite (complete_eq s c o (set_status "running")
             (λ t, set_startedAt t) (λ o2, LogRestarted (name o2))) by done.
  apply log_or_exit_loggable. by rewrite (loggable_name LogRestarted).
Qed.

Lemma run_RestartMid s c o :
  heap s !! c = Some o →
  run_task (RestartMid c) s
  = Some (setTimeout (RestartEnd c) 3000
            (with_heap (<[c := set_status "starting" o]> (heap s)) s)).
Proof. intros Ho. simpl. by rewrite (update_Some _ _ _ o). Qed.

Lemma run_CreateDone_found s c o c' o' :
  heap s !! c = Some o → containers s !! id o = Some c' →
  heap s !! c' = Some o' → can_to_string (name o') = true →
  run_task (CreateDone c) s
  = Some (console_log
            (LogNowRunning (name o') (String.substring 0 12 (id o')))
            (with_heap
               (<[c' := set_startedAt (now s) (set_status "running" o')]>
                  (heap s)) s)).
Proof.
  intros Ho Hc' Ho' Hn. simpl. change (deref c s) with (heap s !! c).
  rewrite Ho. simpl. rewrite Hc'.
  rewrite (complete_eq s c' o' (set_status "running")
             (λ t, set_startedAt t)
             (λ o2, LogNowRunning (name o2) (String.substring 0 12 (id o2))))
    by done.
  apply log_or_exit_loggable. unfold loggable. simpl. by rewrite Hn.
Qed.

(** The startup callback finds a record whose name cannot be put in the log
    line: it has written to the record when the line throws, and the process
    ends. *)
Lemma run_CreateDone_throws s c o c' o' :
  heap s !! c = Some o → containers s !! id o = Some c' →
  heap s !! c' = Some o' → can_to_string (name o') = false →
  run_task (CreateDone c) s = None.
Proof.
  intros Ho Hc' Ho' Hn. simpl. change (deref c s) with (heap s !! c).
  rewrite Ho. simpl. rewrite Hc'.
  rewrite (complete_eq s c' o' (set_status "running")
             (λ t, set_startedAt t)
             (λ o2, LogNowRunning (name o2) (String.substring 0 12 (id o2))))
    by done.
  unfold log_or_exit, try_log, loggable. simpl. by rewrite Hn.
Qed.

(** So would the other completing callbacks, were they ever queued for such
    a record. *)
Lemma run_throws s t o :
  heap s !! task_ref t = Some o → can_to_string (name o) = false →
  (∃ c, t = StartDone c ∨ t = StopDone c ∨ t = RestartEnd c) →
  run_task t s = None.
Proof.
  intros Ho Hn (c & [-> |[-> | ->]]); simpl in *.
  - rewrite (complete_eq s c o (set_status "running")
               (λ t, set_startedAt t) (λ o2, LogStarted (name o2))) by done.
    unfold log_or_exit, try_log, loggable. simpl. by rewrite Hn.
  - rewrite (complete_eq s c o (set_status "stopped")
               (λ t, set_stoppedAt t) (λ o2, LogStopped (name o2))) by done.
    unfold log_or_exit, try_log, loggable. simpl. by rewrite Hn.
  - rewrite (complete_eq s c o (set_status "running")
               (λ t, set_startedAt t) (λ o2, LogRestarted (name o2))) by done.
    unfold log_or_exit, try_log, loggable. simpl. by rewrite Hn.
Qed.

Lemma run_CreateDone_gone s c o :
  heap s !! c = Some o → containers s !! id o = None →
  run_task (CreateDone c) s = Some s.
Proof.
  intros Ho Hnone. simpl. change (deref c s) with (heap s !! c).
  rewrite Ho. simpl. by rewrite Hnone.
Qed.

(** ** Every step is one of the effects *)

Lemma effect_refl s : effect s s.
Proof. by apply eff_idle. Qed.

Lemma effect_post_servers body rnd s s' r :
  inv s → post_servers body rnd s = Some (s', r) → effect s s'.
Proof.
  intros Hs. unfold post_servers.
  destruct (destructure body) as [err|config];
    [intros [= <- _]; apply effect_refl|].
  destruct (negb _); [intros [= <- _]; apply effect_refl|].
  rewrite createContainer_eq. unfold try_log. destruct (loggable _).
  - unfold deref. simpl. rewrite lookup_insert_eq. simpl. intros [= <- _].
    by apply (eff_create _ _ config rnd); [apply inv_next_ref_unused|..].
  - intros [= <- _].
    by apply (eff_create _ _ config rnd); [apply inv_next_ref_unused|..].
Qed.

Lemma effect_get_server i s s' r :
  get_server i s = Some (s', r) → effect s s'.
Proof.
  unfold get_server. destruct (containers s !! i) as [c|];
    [destruct (deref c s); simpl; [|done]|];
    intros [= <- _]; apply effect_refl.
Qed.

Lemma effect_post_start i s s' r :
  post_start i s = Some (s', r) → effect s s'.
Proof.
  unfold post_start. destruct (containers s !! i) as [c|] eqn:Hc;
    [|intros [= <- _]; apply effect_refl].
  destruct (deref c s) as [o|] eqn:Ho; simpl; [|done].
  destruct (String.eqb _ _); [intros [= <- _]; apply effect_refl|].
  rewrite (update_Some _ _ _ o) by done. simpl.
  unfold try_log. rewrite (loggable_name LogStarting) by done.
  destruct (can_to_string (name o)) eqn:Hn; intros [= <- _].
  - apply (eff_transition _ _ i c o "starting" (StartDone c) 3000); try done.
    by left.
  - apply (eff_aborted _ _ i c o "starting"); auto.
Qed.

Lemma effect_post_stop i s s' r :
  post_stop i s = Some (s', r) → effect s s'.
Proof.
  unfold post_stop. destruct (containers s !! i) as [c|] eqn:Hc;
    [|intros [= <- _]; apply effect_refl].
  destruct (deref c s) as [o|] eqn:Ho; simpl; [|done].
  destruct (String.eqb _ _); [intros [= <- _]; apply effect_refl|].
  rewrite (update_Some _ _ _ o) by done. simpl.
  unfold try_log. rewrite (loggable_name LogStopping) by done.
  destruct (can_to_string (name o)) eqn:Hn; intros [= <- _].
  - apply (eff_transition _ _ i c o "stopping" (StopDone c) 2000); try done.
    right. by left.
  - apply (eff_aborted _ _ i c o "stopping"); auto.
Qed.

Lemma effect_post_restart i s s' r :
  post_restart i s = Some (s', r) → effect s s'.
Proof.
  unfold post_restart. destruct (containers s !! i) as [c|] eqn:Hc;
    [|intros [= <- _]; apply effect_refl].
  destruct (deref c s) as [o|] eqn:Ho; simpl; [|done].
  rewrite (update_Some _ _ _ o) by done. simpl.
  unfold try_log. rewrite (loggable_name LogRestarting) by done.
  destruct (can_to_string (name o)) eqn:Hn; intros [= <- _].
  - apply (eff_transition _ _ i c o "stopping" (RestartMid c) 2000); try done.
    right. by right.
  - apply (eff_aborted _ _ i c o "stopping"); auto.
Qed.

Lemma effect_delete_server i s s' r :
  delete_server i s = Some (s', r) → effect s s'.
Proof.
  unfold delete_server. destruct (containers s !! i) as [c|] eqn:Hc;
    [|intros [= <- _]; apply effect_refl].
  destruct (deref c s) as [o|]; simpl; [|done].
  unfold try_log. destruct (loggable _); intros [= <- _];
    by apply (eff_delete _ _ i c).
Qed.

Lemma effect_fire k s s' : inv s → fire k s = Some s' → effect s s'.
Proof.
  intros Hs. unfold fire.
  destruct (timers s !! k) as [[due t]|] eqn:Hk;
    [|intros [= <-]; apply effect_refl].
  destruct (N.leb_spec due (now s)) as [Hdue|_];
    [|intros [= <-]; apply effect_refl].
  assert (is_Some (heap s !! task_ref t)) as [o Ho].
  { eapply (inv_timers s Hs), list_elem_of_lookup_2, Hk. }
  set (s0 := with_timers (delete k (timers s)) s).
  destruct t as [c|c|c|c|c]; simpl in Ho.
  - destruct (containers s !! id o) as [c'|] eqn:Hc'.
    + destruct (inv_registry s Hs _ _ Hc') as (o' & Ho' & _).
      destruct (can_to_string (name o')) eqn:Hn;
        [|by rewrite (run_CreateDone_throws s0 c o c' o')].
      rewrite (run_CreateDone_found s0 c o c' o') by done. intros [= <-].
      apply (eff_complete _ _ k due (CreateDone c) c' o'
               (mark_running (now s))); try done.
      do 3 right. by exists c, o.
    + rewrite (run_CreateDone_gone s0 c o) by done. intros [= <-].
      by apply (eff_startup_gone _ _ k due c o).
  - destruct (can_to_string (name o)) eqn:Hn;
      [|rewrite (run_throws s0 _ o); [done..|eauto]].
    rewrite (run_StartDone s0 c o) by done. intros [= <-].
    apply (eff_complete _ _ k due (StartDone c) c o (mark_running (now s)));
      try done. by left.
  - destruct (can_to_string (name o)) eqn:Hn;
      [|rewrite (run_throws s0 _ o); [done..|eauto]].
    rewrite (run_StopDone s0 c o) by done. intros [= <-].
    apply (eff_complete _ _ k due (StopDone c) c o (mark_stopped (now s)));
      try done. right. right. by left.
  - rewrite (run_RestartMid s0 c o) by done. intros [= <-].
    by apply (eff_restart_mid _ _ k due c o).
  - destruct (can_to_string (name o)) eqn:Hn;
      [|rewrite (run_throws s0 _ o); [done..|eauto 6]].
    rewrite (run_RestartEnd s0 c o) by done. intros [= <-].
    apply (eff_complete _ _ k due (RestartEnd c) c o (mark_running (now s)));
      try done. right. by left.
Qed.

Lemma handle_effect e s s' r :
  inv s → handle e s = Some (s', r) → effect s s'.
Proof.
  intros Hs. destruct e as [body rnd|i|i|i|i|i|d|k]; simpl.
  - destruct (post_servers body rnd s) as [[s1 r1]|] eqn:E; simpl; [|done].
    intros [= <- _]. by eapply effect_post_servers.
  - destruct (get_server i s) as [[s1 r1]|] eqn:E; simpl; [|done].
    intros [= <- _]. by eapply effect_get_server.
  - destruct (post_start i s) as [[s1 r1]|] eqn:E; simpl; [|done].
    intros [= <- _]. by eapply effect_post_start.
  - destruct (post_stop i s) as [[s1 r1]|] eqn:E; simpl; [|done].
    intros [= <- _]. by eapply effect_post_stop.
  - destruct (post_restart i s) as [[s1 r1]|] eqn:E; simpl; [|done].
    intros [= <- _]. by eapply effect_post_restart.
  - destruct (delete_server i s) as [[s1 r1]|] eqn:E; simpl; [|done].
    intros [= <- _]. by eapply effect_delete_server.
  - intros [= <- _]. apply eff_idle; simpl; try done. lia.
  - destruct (fire k s) as [s1|] eqn:E; simpl; [|done].
    intros [= <- _]. by eapply effect_fire.
Qed.

(** ** Callbacks are queued for records whose name can be logged *)

Lemma effect_timers_loggable s s' :
  inv s → effect s s' → timers_loggable s → timers_loggable s'.
Proof.
  intros Hs Heff Hall due1 t1 o1 Hin Hnc Ho1.
  assert (∀ c o x, heap s !! c = Some o →
            <[c := x]> (heap s) !! task_ref t1 = Some o1 →
            name x = name o →
            ∃ o2, heap s !! task_ref t1 = Some o2 ∧ name o1 = name o2)
    as Hwrite.
  { intros c o x Ho [[<- <-]|[_ H]]%lookup_insert_Some Hname; eauto. }
  destruct Heff as
    [_ Hh _ Ht
    |config rnd Hfree _ Hh _ Ht
    |i c o st task delay _ Ho Hn Hcase _ Hh _ Ht
    |i c o st _ Ho _ _ _ Hh _ Ht
    |i c _ _ Hh _ Ht
    |k due task c o f _ _ Ho Hcase _ Hh _ Ht
    |k due c0 o0 _ _ _ _ _ Hh _ Ht
    |k due c o Hk _ Ho _ Hh _ Ht];
    rewrite Hh in Ho1; rewrite Ht in Hin.
  - by eapply Hall.
  - apply elem_of_app in Hin as [Hin|[= -> ->]%list_elem_of_singleton];
      [|by destruct (Hnc (next_ref s))].
    apply lookup_insert_Some in Ho1 as [[Heq _]|[_ Ho1]]; [|by eapply Hall].
    destruct (inv_timers s Hs due1 t1 Hin) as [? ?]. congruence.
  - destruct (Hwrite c o _ Ho Ho1 eq_refl) as (o2 & Ho2 & ->).
    apply elem_of_app in Hin as [Hin|[= -> ->]%list_elem_of_singleton];
      [by eapply Hall|].
    assert (task_ref task = c) as Href
        by (by destruct Hcase as [(_ & -> & _)|[(_ & -> & _)|(_ & -> & _)]]).
    rewrite Href in Ho2. congruence.
  - destruct (Hwrite c o _ Ho Ho1 eq_refl) as (o2 & Ho2 & ->).
    by eapply Hall.
  - by eapply Hall.
  - apply list_elem_of_delete_inv in Hin.
    assert (name (f o) = name o) as Hname.
    { by destruct Hcase as
        [(_ & ->)|[(_ & ->)|[(_ & ->)|(c0 & o0 & _ & _ & _ & ->)]]]. }
    destruct (Hwrite c o _ Ho Ho1 Hname) as (o2 & Ho2 & ->).
    by eapply Hall.
  - apply list_elem_of_delete_inv in Hin. by eapply Hall.
  - destruct (Hwrite c o _ Ho Ho1 eq_refl) as (o2 & Ho2 & ->).
    apply elem_of_app in Hin as [Hin%list_elem_of_delete_inv
                                 |[= -> ->]%list_elem_of_singleton];
      [by eapply Hall|].
    simpl in Ho2. assert (o2 = o) as -> by congruence.
    eapply (Hall due (RestartMid c));
      [by eapply list_elem_of_lookup_2|done|done].
Qed.

Lemma reachable_timers_loggable s : reachable s → timers_loggable s.
Proof.
  induction 1 as [t0|e s s' r Hs IH _ Hh].
  - intros due t o H. by apply elem_of_nil in H.
  - pose proof (reachable_inv s Hs) as Hinv.
    eapply effect_timers_loggable; [done| |exact IH]. by eapply handle_effect.
Qed.

(** ** Traces of the examples are runs of the process *)

Lemma reachable_after es :
  Forall wf_event es → is_Some (run es (init 0)) →
  reachable (Scenario.after es).
Proof.
  intros Hes [s Hs]. unfold Scenario.after. rewrite Hs. simpl.
  eapply run_reachable; [apply reachable_init|done..].
Qed.

Lemma registry_lookup s i :
  registry s !! i = c ← containers s !! i; heap s !! c.
Proof. unfold registry. by rewrite lookup_omap. Qed.

Lemma registry_lookup_Some s i o :
  registry s !! i = Some o ↔
  ∃ c, containers s !! i = Some c ∧ heap s !! c = Some o.
Proof.
  rewrite registry_lookup. split.
  - destruct (containers s !! i) as [c|]; simpl; [eauto|done].
  - intros (c & -> & Ho). done.
Qed.

(** ** Status is always one of the five enumerated values *)

(** C8. In every state reachable by requests (create, get, start, stop,
    restart, delete), passing time and timer callbacks, the record that the
    registry shows under any id has a status among [created], [starting],
    [running], [stopping] and [stopped]. *)
Theorem status_enumerated s i o :
  reachable s → registry s !! i = Some o →
  status o = "created" ∨ status o = "starting" ∨ status o = "running"
  ∨ status o = "stopping" ∨ status o = "stopped".
Proof.
  intros Hs%reachable_inv (c & _ & Ho)%registry_lookup_Some.
  exact (inv_status s Hs c o Ho).
Qed.

Lemma status_enumerated_witness :
  ∃ o, registry (Scenario.after Scenario.stopping_trace) !! Scenario.id_a
       = Some o
       ∧ status o = "stopping"
       ∧ (status o = "created" ∨ status o = "starting" ∨ status o = "running"
          ∨ status o = "stopping" ∨ status o = "stopped").
Proof.
  eexists. split; [vm_compute; reflexivity|]. split; [reflexivity|].
  eapply (status_enumerated (Scenario.after Scenario.stopping_trace)
            Scenario.id_a).
  - apply reachable_after.
    + repeat constructor.
    + vm_compute. eauto.
  - vm_compute. reflexivity.
Defined.

(** ** Creation *)

Lemma destructure_inr body config :
  destructure body = inr config →
  get_prop body "name" = inr (cfg_name config)
  ∧ get_prop body "type" = inr (cfg_type config)
  ∧ get_prop body "version" = inr (cfg_version config)
  ∧ get_prop body "port" = inr (cfg_port config)
  ∧ get_prop body "ramMb" = inr (cfg_ramMb config)
  ∧ get_prop body "maxPlayers" = inr (cfg_maxPlayers config).
Proof.
  unfold destructure.
  destruct (get_prop body "name"), (get_prop body "type"),
    (get_prop body "version"), (get_prop body "port"),
    (get_prop body "ramMb"), (get_prop body "maxPlayers"); try done.
  by intros [= <-].
Qed.

Lemma destructure_readable body v :
  get_prop body "name" = inr v →
  ∃ config, destructure body = inr config ∧ cfg_name config = v.
Proof.
  destruct body; try done; simpl; intros [= <-]; eexists; split;
    reflexivity.
Qed.

(** C7. A creation request whose body has no [name] is answered 400 and
    leaves the whole process state as it was: no record is stored, the
    registry and its size are what they were before the request. *)
Theorem create_without_name body rnd s :
  get_prop body "name" = inr JUndefined →
  ∃ s',
    handle (PostServers body rnd) s
    = Some (s', Some {| code := 400; body := BError "Server name is required" |})
    ∧ s' = s
    ∧ registry s' = registry s
    ∧ size (containers s') = size (containers s).
Proof.
  intros (config & Hd & Hname)%destructure_readable.
  exists s. simpl. unfold post_servers. rewrite Hd, Hname. done.
Qed.

Lemma create_without_name_witness :
  ∃ s',
    handle (PostServers Scenario.nameless Scenario.rnd_b)
      (Scenario.after Scenario.stopping_trace)
    = Some (s', Some {| code := 400; body := BError "Server name is required" |})
    ∧ s' = Scenario.after Scenario.stopping_trace
    ∧ registry s' = registry (Scenario.after Scenario.stopping_trace)
    ∧ size (containers s')
      = size (containers (Scenario.after Scenario.stopping_trace)).
Proof.
  apply (create_without_name Scenario.nameless Scenario.rnd_b
           (Scenario.after Scenario.stopping_trace)).
  reflexivity.
Defined.

Lemma post_servers_created body config rnd s :
  destructure body = inr config → to_boolean (cfg_name config) = true →
  loggable_config config = true →
  post_servers body rnd s
  = Some (console_log
            (LogCreating (cfg_name config) (cfg_type config)
               (cfg_version config))
            (setTimeout (CreateDone (next_ref s)) 3000
               (createContainer config rnd s).2),
          {| code := 201;
             body := BContainer (new_container config rnd (now s)) |}).
Proof.
  intros Hd Hname Hlog. unfold post_servers. rewrite Hd, Hname. simpl.
  rewrite try_log_Some by done.
  unfold deref. simpl. by rewrite lookup_insert_eq.
Qed.

(** The log line of the creation throws: the record is stored and its
    callback queued by then, and the handler's [catch] answers 500. *)
Lemma post_servers_unlogged body config rnd s :
  destructure body = inr config → to_boolean (cfg_name config) = true →
  loggable_config config = false →
  post_servers body rnd s
  = Some (setTimeout (CreateDone (next_ref s)) 3000
            (createContainer config rnd s).2,
          {| code := 500; body := BErrMessage TypeError |}).
Proof.
  intros Hd Hname Hlog. unfold post_servers. rewrite Hd, Hname. simpl.
  by rewrite try_log_throws.
Qed.

(** *** Defaults go by truthiness *)

Lemma or_omit_falsy v d : Js.or (omit_falsy v) d = Js.or v d.
Proof.
  unfold Js.or, omit_falsy. destruct (to_boolean v) eqn:E; [by rewrite E|done].
Qed.

Lemma or_truthy v d : to_boolean d = true → to_boolean (Js.or v d) = true.
Proof. intros Hd. unfold Js.or. by destruct (to_boolean v) eqn:E. Qed.

Lemma truthy_ne v w : to_boolean v = true → to_boolean w = false → v ≠ w.
Proof. intros Hv Hw ->. congruence. Qed.

(** C10. [createContainer] substitutes a default by truthiness: a config
    whose optional fields are supplied but falsy (0, -0, NaN, the empty
    string, [null], [false]) gives exactly the result of the config with
    those fields left out. So every optional field of the record built is
    truthy; in particular its port is never 0 and its version and type are
    never the empty string. *)
Theorem defaults_by_truthiness config rnd s :
  createContainer config rnd s
  = createContainer (omit_falsy_fields config) rnd s
  ∧ omit_falsy (JNum 0) = JUndefined
  ∧ omit_falsy (JStr "") = JUndefined
  ∧ ∃ c s1 o,
      createContainer config rnd s = (c, s1)
      ∧ registry s1 !! Hex.encode rnd = Some o
      ∧ to_boolean (type o) = true
      ∧ to_boolean (version o) = true
      ∧ to_boolean (port o) = true
      ∧ to_boolean (ramMb o) = true
      ∧ to_boolean (maxPlayers o) = true
      ∧ port o ≠ JNum 0 ∧ ramMb o ≠ JNum 0 ∧ maxPlayers o ≠ JNum 0
      ∧ type o ≠ JStr "" ∧ version o ≠ JStr "".
Proof.
  split; [|split; [done|split; [done|]]].
  - rewrite !createContainer_eq. unfold new_container. simpl.
    by rewrite !or_omit_falsy.
  - exists (next_ref s), (createContainer config rnd s).2,
      (new_container config rnd (now s)).
    rewrite createContainer_eq, registry_lookup. simpl.
    rewrite lookup_insert_eq. simpl. rewrite lookup_insert_eq.
    assert (∀ v d, to_boolean d = true → to_boolean (Js.or v d) = true)
      as Hor by apply or_truthy.
    repeat split; try (by apply Hor);
      by (apply truthy_ne; [apply Hor|]).
Qed.

Example falsy_fields_defaulted :
  ∃ s', post_servers Scenario.falsy_fields Scenario.rnd_a (init 0)
        = Some (s', {| code := 201;
                       body := BContainer
                         {| id := Scenario.id_a; name := JStr "Creative";
                            type := JStr "paper"; version := JStr "1.21.1";
                            port := JNum 25565; ramMb := JNum 2048;
                            maxPlayers := JNum 20; status := "created";
                            createdAt := 0; startedAt := None;
                            stoppedAt := None |} |}).
Proof. eexists. vm_compute. reflexivity. Qed.

(** ** Identifiers *)

Lemma undigit_digit n : n < 16 → Hex.undigit (Hex.digit n) = Some n.
Proof.
  intros H.
  destruct n as [|p]; [done|].
  do 4 (destruct p as [p|p|]; try done; try lia).
Qed.

Lemma digit_inj m n : m < 16 → n < 16 → Hex.digit m = Hex.digit n → m = n.
Proof.
  intros Hm Hn H. apply (f_equal Hex.undigit) in H.
  rewrite !undigit_digit in H by done. congruence.
Qed.

Lemma byte_digits_inj (a b : Byte.byte) :
  Hex.digit (Byte.to_N a / 16) = Hex.digit (Byte.to_N b / 16) →
  Hex.digit (Byte.to_N a mod 16) = Hex.digit (Byte.to_N b mod 16) →
  a = b.
Proof.
  intros Hhi Hlo.
  pose proof (Byte.to_N_bounded a) as Ha.
  pose proof (Byte.to_N_bounded b) as Hb.
  apply digit_inj in Hhi;
    [|apply N.Div0.div_lt_upper_bound; lia
     |apply N.Div0.div_lt_upper_bound; lia].
  apply digit_inj in Hlo; [|by apply N.mod_lt..].
  assert (Byte.to_N a = Byte.to_N b) as Heq.
  { rewrite (N.div_mod (Byte.to_N a) 16), (N.div_mod (Byte.to_N b) 16) by done.
    congruence. }
  apply (f_equal Byte.of_N) in Heq. rewrite !Byte.of_to_N in Heq. congruence.
Qed.

Lemma encode_inj rnd1 rnd2 : Hex.encode rnd1 = Hex.encode rnd2 → rnd1 = rnd2.
Proof.
  revert rnd2. induction rnd1 as [|a r1 IH]; intros [|b r2]; simpl; try done.
  intros [= Hhi Hlo Hrest]. f_equal; [by apply byte_digits_inj|by apply IH].
Qed.



(** C6 as stated fails where it says the identifier is fresh: when the
    random source returns bytes it returned before, [createContainer] gives
    the new record an identifier under which a record is already
    registered. *)
Lemma redrawn_id_is_not_fresh :
  ∃ s1 r1 o1 c s2 o,
    handle (PostServers Scenario.survival Scenario.rnd_a) (init 0)
    = Some (s1, Some r1)
    ∧ registry s1 !! Scenario.id_a = Some o1
    ∧ createContainer Scenario.survival_config Scenario.rnd_a s1 = (c, s2)
    ∧ heap s2 !! c = Some o
    ∧ id o = Scenario.id_a
    ∧ containers s1 !! id o = Some 1%positive
    ∧ c = 2%positive.
Proof. do 6 eexists. vm_compute. repeat split; reflexivity. Qed.

(** C9, as the code has it. Two calls of [createContainer], in whatever
    states and with whatever configs (the same name included), give records
    with the same id exactly when [crypto.randomBytes] returned the same
    sixteen bytes to both; draws that differ give ids that differ. Nothing
    compares the id drawn with the ids already in the registry. *)
Theorem ids_distinct_iff_draws_distinct config1 config2 rnd1 rnd2 s1 s2 :
  ∃ c1 s1' o1 c2 s2' o2,
    createContainer config1 rnd1 s1 = (c1, s1')
    ∧ heap s1' !! c1 = Some o1
    ∧ createContainer config2 rnd2 s2 = (c2, s2')
    ∧ heap s2' !! c2 = Some o2
    ∧ (id o1 = id o2 ↔ rnd1 = rnd2)
    ∧ (rnd1 ≠ rnd2 → id o1 ≠ id o2).
Proof.
  exists (next_ref s1), (createContainer config1 rnd1 s1).2,
    (new_container config1 rnd1 (now s1)),
    (next_ref s2), (createContainer config2 rnd2 s2).2,
    (new_container config2 rnd2 (now s2)).
  rewrite !createContainer_eq. simpl. rewrite !lookup_insert_eq.
  repeat split; try done.
  - apply encode_inj.
  - by intros ->.
  - intros Hne Heq. by apply Hne, encode_inj.
Qed.

(** C9 as stated fails: when the random source returns the same bytes to two
    creations, both records get the same id, and the second takes the place
    of the first in the registry. *)
Lemma same_draw_same_id :
  ∃ s1 r1 s2 r2,
    wf_event (PostServers Scenario.survival Scenario.rnd_a)
    ∧ handle (PostServers Scenario.survival Scenario.rnd_a) (init 0)
      = Some (s1, Some r1)
    ∧ handle (PostServers Scenario.survival Scenario.rnd_a) s1
      = Some (s2, Some r2)
    ∧ code r1 = 201 ∧ code r2 = 201
    ∧ response_id r1 = Some Scenario.id_a
    ∧ response_id r2 = Some Scenario.id_a
    ∧ containers s1 !! Scenario.id_a = Some 1%positive
    ∧ containers s2 !! Scenario.id_a = Some 2%positive
    ∧ size (containers s2) = 1%nat.
Proof. do 4 eexists. vm_compute. repeat split; reflexivity. Qed.

(** ** After a delete *)

Lemma registry_ext s s' :
  containers s' = containers s →
  (∀ j c, containers s !! j = Some c → heap s' !! c = heap s !! c) →
  registry s' = registry s.
Proof.
  intros Hc Hh. apply map_eq. intros j. rewrite !registry_lookup, Hc.
  destruct (containers s !! j) as [c|] eqn:E; simpl; [by apply (Hh j)|done].
Qed.

(** A record object whose id the Map does not know is not in the Map under
    any other id either. *)
Lemma detached s i c o :
  inv s → containers s !! i = None → heap s !! c = Some o → id o = i →
  ∀ j c', containers s !! j = Some c' → c' ≠ c.
Proof.
  intros Hs Hnone Ho Hi j c' Hj ->.
  destruct (inv_registry s Hs j c Hj) as (o' & Ho' & Hid).
  congruence.
Qed.

Lemma registry_write_detached s i c o x s' :
  inv s → containers s !! i = None → heap s !! c = Some o → id o = i →
  containers s' = containers s → heap s' = <[c := x]> (heap s) →
  registry s' = registry s.
Proof.
  intros Hs Hnone Ho Hi Hc Hh. apply registry_ext; [done|].
  intros j c' Hj. rewrite Hh. apply lookup_insert_ne.
  intros <-. by eapply detached.
Qed.

Lemma delete_server_forgets i s s' r :
  delete_server i s = Some (s', r) → containers s' !! i = None.
Proof.
  unfold delete_server. destruct (containers s !! i) as [c|] eqn:E.
  - destruct (deref c s); simpl; [|done].
    unfold try_log. destruct (loggable _); intros [= <- _]; simpl;
      apply lookup_delete_eq.
  - by intros [= <- _].
Qed.

Lemma update_containers c f s s' :
  update c f s = Some s' → containers s' = containers s.
Proof. by intros (o & _ & ->)%update_inv_Some. Qed.

Lemma run_task_containers t s s' :
  run_task t s = Some s' → containers s' = containers s.
Proof.
  destruct t as [c|c|c|c|c]; simpl; intros H.
  - destruct (deref c _) as [o|]; simpl in H; [|done].
    destruct (containers s !! id o) as [c'|]; [|by injection H as <-].
    destruct (update c' _ _) as [s2|] eqn:E1; simpl in H; [|done].
    destruct (update c' _ s2) as [s3|] eqn:E2; simpl in H; [|done].
    destruct (deref c' s3); simpl in H; [|done].
    apply log_or_exit_Some in H as [_ ->]. simpl.
    by rewrite (update_containers _ _ _ _ E2), (update_containers _ _ _ _ E1).
  - destruct (update c _ _) as [s2|] eqn:E1; simpl in H; [|done].
    destruct (update c _ s2) as [s3|] eqn:E2; simpl in H; [|done].
    destruct (deref c s3); simpl in H; [|done].
    apply log_or_exit_Some in H as [_ ->]. simpl.
    by rewrite (update_containers _ _ _ _ E2), (update_containers _ _ _ _ E1).
  - destruct (update c _ _) as [s2|] eqn:E1; simpl in H; [|done].
    destruct (update c _ s2) as [s3|] eqn:E2; simpl in H; [|done].
    destruct (deref c s3); simpl in H; [|done].
    apply log_or_exit_Some in H as [_ ->]. simpl.
    by rewrite (update_containers _ _ _ _ E2), (update_containers _ _ _ _ E1).
  - destruct (update c _ _) as [s2|] eqn:E1; simpl in H; [|done].
    injection H as <-. simpl. by rewrite (update_containers _ _ _ _ E1).
  - destruct (update c _ _) as [s2|] eqn:E1; simpl in H; [|done].
    destruct (update c _ s2) as [s3|] eqn:E2; simpl in H; [|done].
    destruct (deref c s3); simpl in H; [|done].
    apply log_or_exit_Some in H as [_ ->]. simpl.
    by rewrite (update_containers _ _ _ _ E2), (update_containers _ _ _ _ E1).
Qed.

Lemma fire_containers k s s' :
  fire k s = Some s' → containers s' = containers s.
Proof.
  unfold fire.
  destruct (timers s !! k) as [[due t]|]; [|by intros [= <-]].
  destruct (due <=? now s); [|by intros [= <-]].
  by intros ->%run_task_containers.
Qed.

(** What a step does to the Map: nothing, unless it is a creation that gets
    as far as [createContainer], or the deletion of a registered id. *)
Lemma handle_containers e s s' r :
  handle e s = Some (s', r) →
  containers s' = containers s
  ∨ (∃ body rnd, e = PostServers body rnd
       ∧ containers s' = <[Hex.encode rnd := next_ref s]> (containers s))
  ∨ (∃ i, e = DeleteServer i ∧ containers s' = delete i (containers s)).
Proof.
  destruct e as [body rnd|i|i|i|i|i|d|k]; simpl.
  - unfold post_servers.
    destruct (destructure body) as [err|config]; [intros [= <- _]; by left|].
    destruct (negb _); [intros [= <- _]; by left|].
    rewrite createContainer_eq. unfold try_log. destruct (loggable _).
    + unfold deref. simpl. rewrite lookup_insert_eq. simpl.
      intros [= <- _]. right. left. eauto.
    + intros [= <- _]. right. left. eauto.
  - unfold get_server. destruct (containers s !! i) as [c|];
      [destruct (deref c s); simpl; [|done]|]; intros [= <- _]; by left.
  - unfold post_start. destruct (containers s !! i) as [c|];
      [|intros [= <- _]; by left].
    destruct (deref c s) as [o|] eqn:Ho; simpl; [|done].
    destruct (String.eqb _ _); [intros [= <- _]; by left|].
    rewrite (update_Some _ _ _ o) by done. simpl.
    unfold try_log. destruct (loggable _); intros [= <- _]; by left.
  - unfold post_stop. destruct (containers s !! i) as [c|];
      [|intros [= <- _]; by left].
    destruct (deref c s) as [o|] eqn:Ho; simpl; [|done].
    destruct (String.eqb _ _); [intros [= <- _]; by left|].
    rewrite (update_Some _ _ _ o) by done. simpl.
    unfold try_log. destruct (loggable _); intros [= <- _]; by left.
  - unfold post_restart. destruct (containers s !! i) as [c|];
      [|intros [= <- _]; by left].
    destruct (deref c s) as [o|] eqn:Ho; simpl; [|done].
    rewrite (update_Some _ _ _ o) by done. simpl.
    unfold try_log. destruct (loggable _); intros [= <- _]; by left.
  - unfold delete_server. destruct (containers s !! i) as [c|];
      [|intros [= <- _]; by left].
    destruct (deref c s) as [o|]; simpl; [|done].
    unfold try_log. destruct (loggable _); intros [= <- _];
      right; right; eauto.
  - intros [= <- _]. by left.
  - destruct (fire k s) as [s1|] eqn:E; simpl; [|done]. intros [= <- _].
    left. by eapply fire_containers.
Qed.

(** An id that the Map does not know stays unknown through every event but
    a creation that draws the very bytes the id renders. *)
Lemma unknown_stays_unknown e i s s' r :
  (∀ body rnd, e = PostServers body rnd → Hex.encode rnd ≠ i) →
  containers s !! i = None → handle e s = Some (s', r) →
  containers s' !! i = None.
Proof.
  intros Hne Hnone Hh.
  destruct (handle_containers e s s' r Hh)
    as [Heq|[(body & rnd & -> & Heq)|(j & -> & Heq)]]; rewrite Heq.
  - done.
  - rewrite lookup_insert_ne; [done|]. by eapply Hne.
  - rewrite lookup_delete_None. by right.
Qed.

Lemma get_server_unknown i s :
  containers s !! i = None → get_server i s = Some (s, not_found).
Proof. intros H. unfold get_server. by rewrite H. Qed.

(** C1. Take any reachable state in which the id [i] is not in the registry,
    as after DELETE /api/servers/[i], and any pending callback that was
    scheduled for the record of that id (by creation, start, stop or
    restart). Running the callback succeeds, leaves what the registry shows
    exactly as it was, leaves [i] unresolvable (GET answers 404), and does
    not put itself back in the queue: before its delay has elapsed nothing
    happens at all; afterwards it is gone from the queue, and only the outer
    restart callback queues something, namely the second restart phase. *)
Theorem fire_after_delete s i k due t o :
  reachable s → containers s !! i = None →
  timers s !! k = Some (due, t) → heap s !! task_ref t = Some o → id o = i →
  ∃ s',
    handle (Fire k) s = Some (s', None)
    ∧ registry s' = registry s
    ∧ containers s' = containers s
    ∧ registry s' !! i = None
    ∧ get_server i s' = Some (s', not_found)
    ∧ (now s < due → s' = s)
    ∧ (due ≤ now s →
       timers s'
       = (delete k (timers s)
          ++ match t with
             | RestartMid c => [(now s + 3000, RestartEnd c)]
             | _ => []
             end)%list).
Proof.
  intros Hreach Hnone Hk Ho Hi.
  pose proof (reachable_timers_loggable s Hreach due t o
                (list_elem_of_lookup_2 _ _ _ Hk)) as Hlog.
  apply reachable_inv in Hreach as Hs.
  assert (∀ s', registry s' = registry s → containers s' = containers s →
            registry s' !! i = None
            ∧ get_server i s' = Some (s', not_found)) as Hgone.
  { intros s' Hr Hc. rewrite registry_lookup, Hc, Hnone.
    split; [done|]. apply get_server_unknown. by rewrite Hc. }
  destruct (N.lt_ge_cases (now s) due) as [Hlt|Hge].
  { exists s. simpl. rewrite (fire_not_due k s due t) by done. simpl.
    destruct (Hgone s) as [? ?]; [done..|].
    repeat split; try done. lia. }
  set (s0 := with_timers (delete k (timers s)) s).
  assert (inv s0) as Hs0 by by apply inv_drop_timer.
  assert (∀ s', fire k s = Some s' → registry s' = registry s →
            containers s' = containers s →
            timers s' = (delete k (timers s)
                         ++ match t with
                            | RestartMid c => [(now s + 3000, RestartEnd c)]
                            | _ => []
                            end)%list →
            ∃ s', handle (Fire k) s = Some (s', None)
              ∧ registry s' = registry s
              ∧ containers s' = containers s
              ∧ registry s' !! i = None
              ∧ get_server i s' = Some (s', not_found)
              ∧ (now s < due → s' = s)
              ∧ (due ≤ now s →
                 timers s'
                 = (delete k (timers s)
                    ++ match t with
                       | RestartMid c => [(now s + 3000, RestartEnd c)]
                       | _ => []
                       end)%list)) as Hfinish.
  { intros s' Hf Hr Hc Ht. exists s'. simpl. rewrite Hf. simpl.
    destruct (Hgone s' Hr Hc) as [? ?]. repeat split; try done. lia. }
  assert (∀ x s', containers s' = containers s →
            heap s' = <[task_ref t := x]> (heap s) →
            registry s' = registry s) as Hwrite.
  { intros x s' Hc Hh. by eapply (registry_write_detached s i (task_ref t) o). }
  pose proof (fire_due k s due t Hk Hge) as Hf. fold s0 in Hf.
  destruct t as [c|c|c|c|c]; simpl in Ho.
  - rewrite (run_CreateDone_gone s0 c o) in Hf by (by try rewrite Hi).
    apply (Hfinish s0); [done|done|done|]. simpl. by rewrite app_nil_r.
  - rewrite (run_StartDone s0 c o) in Hf by (done || by apply Hlog).
    eapply Hfinish; [done|by eapply Hwrite|done|]. simpl. by rewrite app_nil_r.
  - rewrite (run_StopDone s0 c o) in Hf by (done || by apply Hlog).
    eapply Hfinish; [done|by eapply Hwrite|done|]. simpl. by rewrite app_nil_r.
  - rewrite (run_RestartMid s0 c o) in Hf by done.
    eapply Hfinish; [done|by eapply Hwrite|done|done].
  - rewrite (run_RestartEnd s0 c o) in Hf by (done || by apply Hlog).
    eapply Hfinish; [done|by eapply Hwrite|done|]. simpl. by rewrite app_nil_r.
Qed.

Lemma fire_after_delete_witness :
  ∃ s',
    handle (Fire 0) (Scenario.after Scenario.stop_delete_trace)
    = Some (s', None)
    ∧ registry s' = registry (Scenario.after Scenario.stop_delete_trace)
    ∧ containers s' = containers (Scenario.after Scenario.stop_delete_trace)
    ∧ registry s' !! Scenario.id_a = None
    ∧ get_server Scenario.id_a s' = Some (s', not_found)
    ∧ (now (Scenario.after Scenario.stop_delete_trace) < 5000 →
       s' = Scenario.after Scenario.stop_delete_trace)
    ∧ (5000 ≤ now (Scenario.after Scenario.stop_delete_trace) →
       timers s'
       = (delete 0%nat (timers (Scenario.after Scenario.stop_delete_trace))
          ++ [])%list).
Proof.
  eapply (fire_after_delete (Scenario.after Scenario.stop_delete_trace)
            Scenario.id_a 0%nat 5000 (StopDone 1%positive)).
  - apply reachable_after.
    + repeat constructor.
    + vm_compute. eauto.
  - vm_compute. reflexivity.
  - vm_compute. reflexivity.
  - vm_compute. reflexivity.
  - reflexivity.
Defined.

(** ** Delayed effects of start, stop and restart *)

















(** ** The startup timer of a creation *)




(** ** The theorems above at concrete states *)

Lemma created_state_facts :
  reachable (Scenario.after Scenario.created_trace)
  ∧ now (Scenario.after Scenario.created_trace) = 0
  ∧ containers (Scenario.after Scenario.created_trace) !! Scenario.id_a
    = Some 1%positive
  ∧ heap (Scenario.after Scenario.created_trace) !! 1%positive
    = Some Scenario.record_a
  ∧ timers (Scenario.after Scenario.created_trace)
    = [(3000, CreateDone 1%positive)].
Proof.
  split.
  - apply reachable_after; [repeat constructor|vm_compute; eauto].
  - vm_compute. repeat split; reflexivity.
Qed.





(** ** Timestamps and statuses agree *)

Lemma inv_run es s s' : inv s → run es s = Some s' → inv s'.
Proof.
  revert s. induction es as [|e es IH]; simpl; intros s Hs.
  - by intros [= <-].
  - destruct (handle e s) as [[s1 r]|] eqn:E; simpl; [|done].
    apply IH. by eapply inv_handle.
Qed.

Lemma stamps_ok_mono t t' o : t ≤ t' → stamps_ok t o → stamps_ok t' o.
Proof.
  intros Hle (H1 & H2 & H3 & H4).
  split; [lia|]. split; [|split; [|done]].
  - intros t1 Ht1. destruct (H2 t1 Ht1). lia.
  - intros t2 Ht2. destruct (H3 t2 Ht2). lia.
Qed.

Lemma stamps_ok_new config rnd t : stamps_ok t (new_container config rnd t).
Proof. repeat split; simpl; try done; lia. Qed.

Lemma stamps_ok_set_status st t o :
  st = "starting" ∨ st = "stopping" →
  stamps_ok t o → stamps_ok t (set_status st o).
Proof.
  intros Hst (H1 & H2 & H3 & _).
  split; [done|]. split; [done|]. split; [done|]. simpl.
  split; [|split]; intros ->; by destruct Hst.
Qed.

Lemma stamps_ok_mark_running t o : stamps_ok t o → stamps_ok t (mark_running t o).
Proof.
  intros (H1 & H2 & H3 & _).
  split; [done|]. split; [intros t1 [= <-]; simpl; lia|]. split; [done|]. simpl.
  split; [eauto|split; done].
Qed.

Lemma stamps_ok_mark_stopped t o : stamps_ok t o → stamps_ok t (mark_stopped t o).
Proof.
  intros (H1 & H2 & H3 & _).
  split; [done|]. split; [done|]. split; [intros t2 [= <-]; simpl; lia|]. simpl.
  split; [done|split; [eauto|done]].
Qed.

Lemma effect_stamps s s' :
  effect s s' →
  (∀ c o, heap s !! c = Some o → stamps_ok (now s) o) →
  ∀ c o, heap s' !! c = Some o → stamps_ok (now s') o.
Proof.
  intros Heff Hall c1 o1.
  destruct Heff as
    [Hnow Hh _ _
    |config rnd _ Hnow Hh _ _
    |i c o st task delay _ Ho _ Hcase Hnow Hh _ _
    |i c o st _ Ho _ Hst Hnow Hh _ _
    |i c _ Hnow Hh _ _
    |k due task c o f _ _ Ho Hcase Hnow Hh _ _
    |k due c0 o0 _ _ _ _ Hnow Hh _ _
    |k due c o _ _ Ho Hnow Hh _ _]; rewrite Hh; try rewrite Hnow.
  - intros H1. eapply stamps_ok_mono; [done|]. by eapply Hall.
  - intros [[_ <-]|[_ H1]]%lookup_insert_Some;
      [apply stamps_ok_new|by eapply Hall].
  - intros [[_ <-]|[_ H1]]%lookup_insert_Some; [|by eapply Hall].
    apply stamps_ok_set_status; [|by eapply Hall].
    destruct Hcase as [(-> & _)|[(-> & _)|(-> & _)]]; auto.
  - intros [[_ <-]|[_ H1]]%lookup_insert_Some; [|by eapply Hall].
    apply stamps_ok_set_status; [done|by eapply Hall].
  - by apply Hall.
  - intros [[_ <-]|[_ H1]]%lookup_insert_Some; [|by eapply Hall].
    destruct Hcase as
      [(_ & ->)|[(_ & ->)|[(_ & ->)|(c0 & o0 & _ & _ & _ & ->)]]];
      (apply stamps_ok_mark_running || apply stamps_ok_mark_stopped);
      by eapply Hall.
  - by apply Hall.
  - intros [[_ <-]|[_ H1]]%lookup_insert_Some; [|by eapply Hall].
    apply stamps_ok_set_status; [auto|by eapply Hall].
Qed.

Lemma reachable_stamps s :
  reachable s → ∀ c o, heap s !! c = Some o → stamps_ok (now s) o.
Proof.
  induction 1 as [t0|e s s' r Hs IH _ Hh].
  - intros c o H. simpl in H. by rewrite lookup_empty in H.
  - eapply effect_stamps; [|exact IH].
    eapply handle_effect; [by apply reachable_inv|done].
Qed.

(** X1. In every reachable state the record shown for an id carries
    timestamps that fit the clock and its status: [createdAt] is not in the
    future, [startedAt] and [stoppedAt], when present, lie between
    [createdAt] and now; a [running] record has a [startedAt], a [stopped]
    one has a [stoppedAt], and a record still [created] has neither. *)
Theorem timestamps_consistent s i o :
  reachable s → registry s !! i = Some o →
  createdAt o ≤ now s
  ∧ (∀ t1, startedAt o = Some t1 → createdAt o ≤ t1 ∧ t1 ≤ now s)
  ∧ (∀ t2, stoppedAt o = Some t2 → createdAt o ≤ t2 ∧ t2 ≤ now s)
  ∧ (status o = "running" → is_Some (startedAt o))
  ∧ (status o = "stopped" → is_Some (stoppedAt o))
  ∧ (status o = "created" → startedAt o = None ∧ stoppedAt o = None).
Proof.
  intros Hs (c & _ & Ho)%registry_lookup_Some.
  exact (reachable_stamps s Hs c o Ho).
Qed.

(** ** Transient statuses are on their way *)










(** ** What a step does to the Map *)

Lemma same_config_refl o : same_config o o.
Proof. by repeat split. Qed.

Lemma same_config_trans o1 o2 o3 :
  same_config o1 o2 → same_config o2 o3 → same_config o1 o3.
Proof.
  intros (?&?&?&?&?&?&?&?) (?&?&?&?&?&?&?&?). repeat split; congruence.
Qed.

Lemma effect_same_config s s' c o :
  effect s s' → heap s !! c = Some o →
  ∃ o', heap s' !! c = Some o' ∧ same_config o o'.
Proof.
  intros Heff Ho.
  destruct Heff as
    [_ Hh _ _
    |config rnd Hnone _ Hh _ _
    |i c1 o1 st task delay _ Ho1 _ _ _ Hh _ _
    |i c1 o1 st _ Ho1 _ _ _ Hh _ _
    |i c1 _ _ Hh _ _
    |k due task c1 o1 f _ _ Ho1 Hcase _ Hh _ _
    |k due c0 o0 _ _ _ _ _ Hh _ _
    |k due c1 o1 _ _ Ho1 _ Hh _ _]; rewrite Hh.
  - exists o. split; [done|apply same_config_refl].
  - exists o. split; [|apply same_config_refl].
    rewrite lookup_insert_ne; [done|congruence].
  - destruct (decide (c1 = c)) as [->|Hne].
    + rewrite lookup_insert_eq. eexists. split; [done|].
      assert (o1 = o) as -> by congruence. by repeat split.
    + rewrite lookup_insert_ne by done.
      exists o. split; [done|apply same_config_refl].
  - destruct (decide (c1 = c)) as [->|Hne].
    + rewrite lookup_insert_eq. eexists. split; [done|].
      assert (o1 = o) as -> by congruence. by repeat split.
    + rewrite lookup_insert_ne by done.
      exists o. split; [done|apply same_config_refl].
  - exists o. split; [done|apply same_config_refl].
  - destruct (decide (c1 = c)) as [->|Hne].
    + rewrite lookup_insert_eq. eexists. split; [done|].
      assert (o1 = o) as -> by congruence.
      destruct Hcase as
        [(_ & ->)|[(_ & ->)|[(_ & ->)|(c0 & o0 & _ & _ & _ & ->)]]];
        by repeat split.
    + rewrite lookup_insert_ne by done.
      exists o. split; [done|apply same_config_refl].
  - exists o. split; [done|apply same_config_refl].
  - destruct (decide (c1 = c)) as [->|Hne].
    + rewrite lookup_insert_eq. eexists. split; [done|].
      assert (o1 = o) as -> by congruence. by repeat split.
    + rewrite lookup_insert_ne by done.
      exists o. split; [done|apply same_config_refl].
Qed.

Lemma run_unknown es i s s' :
  Forall (λ e, ∀ body rnd, e = PostServers body rnd → Hex.encode rnd ≠ i) es →
  containers s !! i = None → run es s = Some s' → containers s' !! i = None.
Proof.
  intros Hes. revert s. induction Hes as [|e es He _ IH]; simpl; intros s Hn.
  - by intros [= <-].
  - destruct (handle e s) as [[s1 r]|] eqn:E; simpl; [|done].
    apply IH. by eapply unknown_stays_unknown.
Qed.

(** X3. The configuration of a record is fixed at creation. Along any run
    from a reachable state in which no creation draws the id [i] again, if
    the registry shows a record under [i] at the start and at the end, the
    two agree on [id], [name], [type], [version], [port], [ramMb],
    [maxPlayers] and [createdAt]: requests and callbacks only ever assign
    [status], [startedAt] and [stoppedAt]. *)
Theorem config_never_changes es s s' i o o' :
  reachable s → run es s = Some s' →
  Forall (λ e, ∀ body rnd, e = PostServers body rnd → Hex.encode rnd ≠ i) es →
  registry s !! i = Some o → registry s' !! i = Some o' →
  id o' = id o ∧ name o' = name o ∧ type o' = type o
  ∧ version o' = version o ∧ port o' = port o ∧ ramMb o' = ramMb o
  ∧ maxPlayers o' = maxPlayers o ∧ createdAt o' = createdAt o.
Proof.
  intros Hs%reachable_inv Hrun Hes. revert s o Hs Hrun.
  induction Hes as [|e es He Hes IH]; simpl; intros s o Hs.
  - intros [= <-] Ho Ho'. assert (o' = o) as -> by congruence.
    apply same_config_refl.
  - destruct (handle e s) as [[s1 r]|] eqn:E; simpl; [|done].
    intros Hrun (c & Hc & Ho)%registry_lookup_Some Ho'.
    pose proof (inv_handle e s s1 r Hs E) as Hs1.
    destruct (effect_same_config s s1 c o) as (o1 & Ho1 & Hsame);
      [by eapply handle_effect|done|].
    destruct (containers s1 !! i) as [c1|] eqn:Hc1.
    + assert (c1 = c) as ->.
      { destruct (handle_containers e s s1 r E)
          as [Heq|[(body & rnd & -> & Heq)|(j & -> & Heq)]];
          rewrite Heq in Hc1.
        - congruence.
        - rewrite lookup_insert_ne in Hc1; [congruence|by eapply He].
        - apply lookup_delete_Some in Hc1 as [_ Hc1]. congruence. }
      eapply same_config_trans; [exact Hsame|].
      apply (IH s1 o1 Hs1 Hrun); [|done].
      apply registry_lookup_Some. eauto.
    + pose proof (run_unknown es i s1 s' Hes Hc1 Hrun) as Hnone.
      apply registry_lookup_Some in Ho' as (c' & Hc' & _). congruence.
Qed.

(** ** Callbacks are never withdrawn *)

Lemma update_timers c f s s' : update c f s = Some s' → timers s' = timers s.
Proof. by intros (o & _ & ->)%update_inv_Some. Qed.

Lemma request_timers e s s' r :
  (∀ k, e ≠ Fire k) → handle e s = Some (s', r) →
  timers s' = timers s
  ∨ ∃ delay t, (delay = 2000 ∨ delay = 3000)
               ∧ timers s' = (timers s ++ [(now s + delay, t)])%list.
Proof.
  intros Hnf. destruct e as [body rnd|i|i|i|i|i|d|k]; simpl.
  - unfold post_servers.
    destruct (destructure body) as [err|config]; [intros [= <- _]; by left|].
    destruct (negb _); [intros [= <- _]; by left|].
    rewrite createContainer_eq. unfold try_log, deref.
    destruct (loggable _); simpl; [rewrite lookup_insert_eq; simpl|];
      intros [= <- _]; right; exists 3000, (CreateDone (next_ref s)); auto.
  - unfold get_server. destruct (containers s !! i) as [c|];
      [destruct (deref c s); simpl; [|done]|]; intros [= <- _]; by left.
  - unfold post_start. destruct (containers s !! i) as [c|];
      [|intros [= <- _]; by left].
    destruct (deref c s) as [o|] eqn:Ho; simpl; [|done].
    destruct (String.eqb _ _); [intros [= <- _]; by left|].
    rewrite (update_Some _ _ _ o) by done. simpl. unfold try_log.
    destruct (loggable _); intros [= <- _]; [right|by left].
    exists 3000, (StartDone c). auto.
  - unfold post_stop. destruct (containers s !! i) as [c|];
      [|intros [= <- _]; by left].
    destruct (deref c s) as [o|] eqn:Ho; simpl; [|done].
    destruct (String.eqb _ _); [intros [= <- _]; by left|].
    rewrite (update_Some _ _ _ o) by done. simpl. unfold try_log.
    destruct (loggable _); intros [= <- _]; [right|by left].
    exists 2000, (StopDone c). auto.
  - unfold post_restart. destruct (containers s !! i) as [c|];
      [|intros [= <- _]; by left].
    destruct (deref c s) as [o|] eqn:Ho; simpl; [|done].
    rewrite (update_Some _ _ _ o) by done. simpl. unfold try_log.
    destruct (loggable _); intros [= <- _]; [right|by left].
    exists 2000, (RestartMid c). auto.
  - unfold delete_server. destruct (containers s !! i) as [c|];
      [|intros [= <- _]; by left].
    destruct (deref c s) as [o|]; simpl; [|done]. unfold try_log.
    destruct (loggable _); intros [= <- _]; by left.
  - intros [= <- _]. by left.
  - by destruct (Hnf k).
Qed.

Lemma delete_server_timers i s s' r :
  delete_server i s = Some (s', r) → timers s' = timers s ∧ heap s' = heap s.
Proof.
  unfold delete_server. destruct (containers s !! i) as [c|];
    [|by intros [= <- _]].
  destruct (deref c s) as [o|]; simpl; [|done]. unfold try_log.
  by destruct (loggable _); intros [= <- _].
Qed.

Lemma fire_timers_eq k s s' due t :
  inv s → timers s !! k = Some (due, t) → due ≤ now s → fire k s = Some s' →
  timers s' = delete k (timers s)
  ∨ timers s' = (delete k (timers s) ++ [(now s + 3000, RestartEnd (task_ref t))])%list.
Proof.
  intros Hs Hk Hge. rewrite (fire_due k s due t Hk Hge).
  assert (is_Some (heap s !! task_ref t)) as [o Ho].
  { eapply (inv_timers s Hs), list_elem_of_lookup_2, Hk. }
  set (s0 := with_timers (delete k (timers s)) s).
  destruct t as [c|c|c|c|c]; simpl in Ho.
  - destruct (containers s !! id o) as [c'|] eqn:Hc'.
    + destruct (inv_registry s Hs _ _ Hc') as (o' & Ho' & _).
      destruct (can_to_string (name o')) eqn:Hn;
        [|by rewrite (run_CreateDone_throws s0 c o c' o')].
      rewrite (run_CreateDone_found s0 c o c' o') by done.
      intros [= <-]. by left.
    + rewrite (run_CreateDone_gone s0 c o) by done. intros [= <-]. by left.
  - destruct (can_to_string (name o)) eqn:Hn;
      [|rewrite (run_throws s0 _ o); [done..|eauto]].
    rewrite (run_StartDone s0 c o) by done. intros [= <-]. by left.
  - destruct (can_to_string (name o)) eqn:Hn;
      [|rewrite (run_throws s0 _ o); [done..|eauto]].
    rewrite (run_StopDone s0 c o) by done. intros [= <-]. by left.
  - rewrite (run_RestartMid s0 c o) by done. intros [= <-]. by right.
  - destruct (can_to_string (name o)) eqn:Hn;
      [|rewrite (run_throws s0 _ o); [done..|eauto 6]].
    rewrite (run_RestartEnd s0 c o) by done. intros [= <-]. by left.
Qed.

Lemma lookup_delete_other {A} (l : list A) j k x :
  l !! j = Some x → j ≠ k → x ∈ delete k l.
Proof.
  intros Hj Hne. apply list_elem_of_lookup.
  destruct (decide (j < k)%nat).
  - exists j. by rewrite list_lookup_delete_lt.
  - exists (pred j). rewrite list_lookup_delete_ge by lia.
    by replace (S (pred j)) with j by lia.
Qed.

Lemma fire_timers k s s' x j :
  inv s → fire k s = Some s' → timers s !! j = Some x →
  x ∈ timers s' ∨ (j = k ∧ x.1 ≤ now s).
Proof.
  intros Hs Hf Hj.
  destruct (timers s !! k) as [[due t]|] eqn:Hk.
  2:{ left. unfold fire in Hf. rewrite Hk in Hf. injection Hf as <-.
      by eapply list_elem_of_lookup_2. }
  destruct (N.lt_ge_cases (now s) due) as [Hlt|Hge].
  { left. rewrite (fire_not_due k s due t) in Hf by done. injection Hf as <-.
    by eapply list_elem_of_lookup_2. }
  destruct (decide (j = k)) as [->|Hne].
  { right. split; [done|]. assert (x = (due, t)) as -> by congruence. done. }
  left. pose proof (lookup_delete_other _ j k x Hj Hne) as Hin.
  destruct (fire_timers_eq k s s' due t Hs Hk Hge Hf) as [-> | ->];
    [done|]. apply elem_of_app. by left.
Qed.

(** X4. Nothing withdraws a pending callback. A request or the passing of
    time leaves every queued callback in place, adding at most one at the
    end, due 2000 or 3000 ms from now; a delete in particular queues and
    removes nothing. When a callback is run, every other queued callback
    stays queued, and the one that left the queue was due. *)
Theorem callbacks_never_cancelled e s s' r :
  reachable s → handle e s = Some (s', r) →
  ((∀ k, e ≠ Fire k) →
   timers s' = timers s
   ∨ ∃ delay t, (delay = 2000 ∨ delay = 3000)
                ∧ timers s' = (timers s ++ [(now s + delay, t)])%list)
  ∧ (∀ i, e = DeleteServer i → timers s' = timers s)
  ∧ (∀ j x, timers s !! j = Some x →
       x ∈ timers s' ∨ (e = Fire j ∧ x.1 ≤ now s)).
Proof.
  intros Hs%reachable_inv Hh. split; [|split].
  - intros Hnf. by eapply request_timers.
  - intros i ->. simpl in Hh.
    destruct (delete_server i s) as [[s1 r1]|] eqn:E; simpl in Hh; [|done].
    injection Hh as <- _. by apply delete_server_timers in E as [? _].
  - intros j x Hj.
    assert ((∃ k, e = Fire k) ∨ (∀ k, e ≠ Fire k)) as [[k ->]|Hnf].
    { destruct e; try (by right); left; eauto. }
    + simpl in Hh. destruct (fire k s) as [s1|] eqn:E; simpl in Hh; [|done].
      injection Hh as <- _.
      destruct (fire_timers k s s1 x j Hs E Hj) as [?|[-> ?]]; auto.
    + left.
      destruct (request_timers e s s' r Hnf Hh) as [-> |(delay & t & _ & ->)].
      * by eapply list_elem_of_lookup_2.
      * apply elem_of_app. left. by eapply list_elem_of_lookup_2.
Qed.

(** ** Requests, seen through the registry *)

Lemma registry_write s s' i c o x :
  inv s → containers s !! i = Some c → heap s !! c = Some o →
  heap s' = <[c := x]> (heap s) → containers s' = containers s →
  registry s' = <[i := x]> (registry s).
Proof.
  intros Hs Hc Ho Hh Hcs. apply map_eq. intros j.
  rewrite registry_lookup, Hcs, Hh.
  destruct (decide (i = j)) as [<-|Hne].
  - rewrite lookup_insert_eq, Hc. simpl. apply lookup_insert_eq.
  - rewrite lookup_insert_ne, registry_lookup by done.
    destruct (containers s !! j) as [c'|] eqn:Hc'; simpl; [|done].
    apply lookup_insert_ne. intros <-.
    destruct (inv_registry s Hs i c Hc) as (o1 & Ho1 & Hi1).
    destruct (inv_registry s Hs j c Hc') as (o2 & Ho2 & Hi2).
    congruence.
Qed.

Lemma registry_key s i o : inv s → registry s !! i = Some o → id o = i.
Proof.
  intros Hs (c & Hc & Ho)%registry_lookup_Some.
  destruct (inv_registry s Hs i c Hc) as (o' & Ho' & Hid). congruence.
Qed.

(** X5. GET /api/servers/:id is a pure lookup that agrees with the key: in a
    reachable state it answers 200 with the record the registry holds under
    the id, whose [id] field is the id asked for, or 404 when there is none;
    the state is the same afterwards. *)
Theorem get_reads_registry s i :
  reachable s →
  ∃ r, handle (GetServer i) s = Some (s, Some r)
    ∧ match registry s !! i with
      | Some o => r = {| code := 200; body := BContainer o |} ∧ id o = i
      | None => r = not_found
      end.
Proof.
  intros Hs%reachable_inv. simpl. unfold get_server.
  pose proof (registry_key s i) as Hkey.
  rewrite registry_lookup in *. unfold deref.
  destruct (containers s !! i) as [c|] eqn:Hc; simpl in *.
  - destruct (inv_registry s Hs i c Hc) as (o & Ho & Hid).
    rewrite Ho in *. simpl. eauto.
  - eauto.
Qed.

(** X6. A creation whose name is truthy changes the registry at the new id
    only, and the record can be read back at once: afterwards the registry
    is the old one with the new record put under its id, GET for that id
    answers 200 with that record, and the number of registered ids grows by
    one when the id was free (and stays the same when the drawn id was
    already registered, whose record is then replaced). All this holds
    whatever the creation answered: 201 with the record when name, type and
    version can be put in the log line, 500 when the log line throws, which
    is after the record was stored. *)
Theorem create_then_get body config rnd s :
  reachable s → destructure body = inr config →
  to_boolean (cfg_name config) = true →
  ∃ s',
    handle (PostServers body rnd) s
    = Some (s',
            Some (if loggable_config config
                  then {| code := 201;
                          body := BContainer
                                    (new_container config rnd (now s)) |}
                  else {| code := 500; body := BErrMessage TypeError |}))
    ∧ registry s'
      = <[Hex.encode rnd := new_container config rnd (now s)]> (registry s)
    ∧ handle (GetServer (Hex.encode rnd)) s'
      = Some (s', Some {| code := 200;
                          body := BContainer
                                    (new_container config rnd (now s)) |})
    ∧ (registry s !! Hex.encode rnd = None →
       size (containers s') = S (size (containers s)))
    ∧ (is_Some (registry s !! Hex.encode rnd) →
       size (containers s') = size (containers s)).
Proof.
  intros Hs%reachable_inv Hd Hname.
  pose proof (inv_next_ref_unused s Hs) as Hfree.
  assert (∀ j, registry s !! j = None ↔ containers s !! j = None) as Hnone.
  { intros j. rewrite registry_lookup.
    destruct (containers s !! j) as [c|] eqn:Hc; simpl; [|done].
    destruct (inv_registry s Hs j c Hc) as (o & -> & _). done. }
  simpl handle.
  destruct (loggable_config config) eqn:Hlog;
    [rewrite (post_servers_created _ config) by done
    |rewrite (post_servers_unlogged _ config) by done];
    eexists; simpl; (split; [reflexivity|]); (split; [|split; [|split]]).
  1,5: apply map_eq; intros j; rewrite registry_lookup; simpl;
    (destruct (decide (Hex.encode rnd = j)) as [<-|Hne];
      [rewrite !lookup_insert_eq; simpl; apply lookup_insert_eq|]);
    rewrite !lookup_insert_ne, registry_lookup by done;
    (destruct (containers s !! j) as [c|] eqn:Hc; simpl; [|done]);
    apply lookup_insert_ne; intros <-;
    destruct (inv_registry s Hs j _ Hc) as (o & Ho & _); congruence.
  1,4: unfold get_server, deref; simpl; rewrite lookup_insert_eq; simpl;
    by rewrite lookup_insert_eq.
  1,3: intros Hn%Hnone; by apply map_size_insert_None.
  1,2: intros [o Ho]; apply map_size_insert_Some;
    (destruct (containers s !! Hex.encode rnd) eqn:E; [eauto|]);
    apply Hnone in E; congruence.
Qed.


(** X8. A start, stop or restart request that gets past its guards changes
    one record of the registry and only its status: afterwards the registry
    is the old one with the status of the record under the id set to
    [starting] (start) or [stopping] (stop, restart); every other id shows
    the record it showed before. A start on a record that is already
    [starting], or a stop on one already [stopping], is accepted again. The
    answer is 200 with success=true when the record's name can be put in the
    log line, and 500 when it cannot: the status is written before the log
    line throws. *)
Theorem transition_touches_one_record s i o :
  reachable s → registry s !! i = Some o →
  (status o ≠ "running" →
   ∃ s', handle (PostStart i) s
         = Some (s', Some (if can_to_string (name o)
                           then ok_message true "Server starting"
                           else uncaught TypeError))
         ∧ registry s' = <[i := set_status "starting" o]> (registry s))
  ∧ (status o ≠ "stopped" →
     ∃ s', handle (PostStop i) s
           = Some (s', Some (if can_to_string (name o)
                             then ok_message true "Server stopping"
                             else uncaught TypeError))
           ∧ registry s' = <[i := set_status "stopping" o]> (registry s))
  ∧ (∃ s', handle (PostRestart i) s
           = Some (s', Some (if can_to_string (name o)
                             then ok_message true "Server restarting"
                             else uncaught TypeError))
           ∧ registry s' = <[i := set_status "stopping" o]> (registry s)).
Proof.
  intros Hs%reachable_inv (c & Hc & Ho)%registry_lookup_Some.
  split; [|split].
  - intros Hst. simpl. unfold post_start, deref.
    rewrite Hc, Ho. simpl. apply String.eqb_neq in Hst. rewrite Hst.
    rewrite (update_Some _ _ _ o) by done. simpl.
    unfold try_log. rewrite (loggable_name LogStarting) by done.
    destruct (can_to_string (name o)); eexists; simpl;
      (split; [reflexivity|]); by eapply registry_write.
  - intros Hst. simpl. unfold post_stop, deref.
    rewrite Hc, Ho. simpl. apply String.eqb_neq in Hst. rewrite Hst.
    rewrite (update_Some _ _ _ o) by done. simpl.
    unfold try_log. rewrite (loggable_name LogStopping) by done.
    destruct (can_to_string (name o)); eexists; simpl;
      (split; [reflexivity|]); by eapply registry_write.
  - simpl. unfold post_restart, deref.
    rewrite Hc, Ho. simpl.
    rewrite (update_Some _ _ _ o) by done. simpl.
    unfold try_log. rewrite (loggable_name LogRestarting) by done.
    destruct (can_to_string (name o)); eexists; simpl;
      (split; [reflexivity|]); by eapply registry_write.
Qed.

(** X9. An id that is not registered is refused by every route that takes
    one: GET, start, stop, restart and DELETE all answer 404 "Server not
    found" and leave the state as it is. *)
Theorem unknown_id_not_found s i :
  registry s !! i = None → reachable s →
  handle (GetServer i) s = Some (s, Some not_found)
  ∧ handle (PostStart i) s = Some (s, Some not_found)
  ∧ handle (PostStop i) s = Some (s, Some not_found)
  ∧ handle (PostRestart i) s = Some (s, Some not_found)
  ∧ handle (DeleteServer i) s = Some (s, Some not_found)
  ∧ code not_found = 404.
Proof.
  intros Hnone Hs%reachable_inv.
  assert (containers s !! i = None) as Hc.
  { rewrite registry_lookup in Hnone.
    destruct (containers s !! i) as [c|] eqn:Hc; [|done].
    destruct (inv_registry s Hs i c Hc) as (o & Ho & _).
    simpl in Hnone. congruence. }
  simpl. unfold get_server, post_start, post_stop, post_restart, delete_server.
  rewrite Hc. done.
Qed.


(** ** The form of identifiers *)

Lemma digit_hex n : is_lower_hex (Hex.digit n).
Proof.
  unfold is_lower_hex.
  destruct n as [|p]; [by eexists|].
  do 4 (destruct p as [p|p|]; try (by eexists)).
Qed.

Lemma encode_length rnd : String.length (Hex.encode rnd) = (2 * length rnd)%nat.
Proof. induction rnd as [|b rnd IH]; simpl; [done|]. rewrite IH. lia. Qed.

Lemma encode_hex rnd :
  Forall is_lower_hex (String.list_ascii_of_string (Hex.encode rnd)).
Proof.
  induction rnd as [|b rnd IH]; simpl; [constructor|].
  repeat constructor; try apply digit_hex. done.
Qed.

Lemma handle_keys e s s' r i :
  inv s → handle e s = Some (s', r) → is_Some (containers s' !! i) →
  is_Some (containers s !! i)
  ∨ ∃ body rnd, e = PostServers body rnd ∧ i = Hex.encode rnd.
Proof.
  intros Hs Hh Hi.
  destruct (handle_containers e s s' r Hh)
    as [Heq|[(body & rnd & -> & Heq)|(j & -> & Heq)]]; rewrite Heq in Hi.
  - by left.
  - destruct (decide (Hex.encode rnd = i)) as [<-|Hne]; [right; eauto|].
    left. by rewrite lookup_insert_ne in Hi.
  - left. destruct Hi as [c [_ Hc]%lookup_delete_Some]. eauto.
Qed.

(** X11. Every id in the registry is 32 lowercase hexadecimal digits: in
    any reachable state, an id under which a record is registered has length
    32 and consists of characters from 0-9 and a-f only. *)
Theorem ids_are_32_hex_digits s i o :
  reachable s → registry s !! i = Some o →
  String.length i = 32%nat
  ∧ Forall is_lower_hex (String.list_ascii_of_string i)
  ∧ id o = i.
Proof.
  intros Hs Ho. split; [|split; [|by eapply registry_key, Ho; apply reachable_inv]].
  - apply registry_lookup_Some in Ho as (c & Hc & _).
    assert (is_Some (containers s !! i)) as Hi by eauto. clear Hc.
    induction Hs as [t0|e s s' r Hs IH Hwf Hh].
    + destruct Hi as [? Hi]. simpl in Hi. by rewrite lookup_empty in Hi.
    + destruct (handle_keys e s s' r i (reachable_inv s Hs) Hh Hi)
        as [Hold|(body & rnd & -> & ->)]; [by apply IH|].
      simpl in Hwf. by rewrite encode_length, Hwf.
  - apply registry_lookup_Some in Ho as (c & Hc & _).
    assert (is_Some (containers s !! i)) as Hi by eauto. clear Hc.
    induction Hs as [t0|e s s' r Hs IH Hwf Hh].
    + destruct Hi as [? Hi]. simpl in Hi. by rewrite lookup_empty in Hi.
    + destruct (handle_keys e s s' r i (reachable_inv s Hs) Hh Hi)
        as [Hold|(body & rnd & -> & ->)]; [by apply IH|].
      apply encode_hex.
Qed.

(** ** Overlapping transitions *)

Lemma handle_tick d s : handle (Tick d) s = Some (advance d s, None).
Proof. done. Qed.


(** ** Authentication *)

Lemma API_KEY_nonempty env : API_KEY env ≠ "".
Proof.
  destruct env as [k|]; simpl; [|done].
  destruct (String.eqb_spec k ""); done.
Qed.

(** X13. The /api routes are open to exactly the requests whose [x-api-key]
    header equals the configured key. The configured key is never empty (an
    unset or empty [API_KEY] variable gives 'mcpanel-dev-key'), so a missing
    or empty header is always refused. A refused request is answered 401
    and the state is untouched, whatever the route and body; an admitted one
    is handled by the route's handler. *)
Theorem api_requires_key env key route s :
  API_KEY env ≠ ""
  ∧ API_KEY None = "mcpanel-dev-key"
  ∧ API_KEY (Some "") = "mcpanel-dev-key"
  ∧ (authenticate (API_KEY env) key = None ↔ key = Some (API_KEY env))
  ∧ (key = Some (API_KEY env) →
     serve_api env key route s = api_handler route s)
  ∧ (key ≠ Some (API_KEY env) →
     serve_api env key route s = Some (s, unauthorized))
  ∧ code unauthorized = 401.
Proof.
  pose proof (API_KEY_nonempty env) as Hne.
  assert (authenticate (API_KEY env) key = None ↔ key = Some (API_KEY env))
    as Hauth.
  { unfold authenticate. destruct key as [k|]; [|done].
    destruct (String.eqb_spec k ""), (String.eqb_spec k (API_KEY env));
      simpl; split; try done; congruence. }
  split; [done|]. split; [done|]. split; [done|]. split; [done|].
  split; [|split; [|done]].
  - intros Hk%Hauth. unfold serve_api. by rewrite Hk.
  - intros Hk. unfold serve_api.
    destruct (authenticate (API_KEY env) key) as [r|] eqn:E.
    + unfold authenticate in E. destruct key as [k|]; [|congruence].
      destruct (_ || _); congruence.
    + destruct Hk. by apply Hauth.
Qed.

(** ** The health counter *)

Lemma registry_dom s : inv s → dom (registry s) = dom (containers s).
Proof.
  intros Hs. apply set_eq. intros i. rewrite !elem_of_dom, registry_lookup.
  destruct (containers s !! i) as [c|] eqn:Hc; simpl.
  - destruct (inv_registry s Hs i c Hc) as (o & -> & _). split; eauto.
  - split; intros [? ?]; done.
Qed.

(** X14. The [containers] figure of GET /health is the number of ids that
    GET /api/servers/:id resolves. A step changes it only in two ways: a
    creation whose id was free adds one, the deletion of a registered id
    takes one away; every other request, every callback and the passing of
    time leave it as it is. *)
Theorem health_counts_registry e s s' r uptime :
  reachable s → handle e s = Some (s', r) →
  h_containers (get_health uptime s) = size (registry s)
  ∧ h_containers (get_health uptime s') = size (registry s')
  ∧ (h_containers (get_health uptime s') = h_containers (get_health uptime s)
     ∨ (h_containers (get_health uptime s')
        = S (h_containers (get_health uptime s))
        ∧ ∃ body rnd, e = PostServers body rnd
                      ∧ registry s !! Hex.encode rnd = None)
     ∨ (S (h_containers (get_health uptime s'))
        = h_containers (get_health uptime s)
        ∧ ∃ i, e = DeleteServer i ∧ is_Some (registry s !! i))).
Proof.
  intros Hs%reachable_inv Hh.
  pose proof (inv_handle e s s' r Hs Hh) as Hs'.
  assert (∀ s0, inv s0 → size (containers s0) = size (registry s0)) as Hsz.
  { intros s0 H0. by rewrite <- !size_dom, registry_dom. }
  assert (∀ j, registry s !! j = None ↔ containers s !! j = None) as Hnone.
  { intros j. by rewrite <- !not_elem_of_dom, registry_dom. }
  simpl. split; [by apply Hsz|]. split; [by apply Hsz|].
  destruct (handle_containers e s s' r Hh)
    as [Heq|[(body & rnd & -> & Heq)|(j & -> & Heq)]]; rewrite Heq.
  - by left.
  - destruct (containers s !! Hex.encode rnd) as [c|] eqn:Hc.
    + left. apply map_size_insert_Some. eauto.
    + right. left. split; [by apply map_size_insert_None|].
      exists body, rnd. split; [done|]. by apply Hnone.
  - destruct (containers s !! j) as [c|] eqn:Hc.
    + right. right. split.
      * rewrite map_size_delete, Hc.
        assert (size (containers s) ≠ 0%nat); [|lia].
        intros Hz%map_size_empty_inv. rewrite Hz in Hc.
        by rewrite lookup_empty in Hc.
      * exists j. split; [done|].
        destruct (registry s !! j) eqn:E; [eauto|].
        apply Hnone in E. congruence.
    + left. by rewrite delete_id.
Qed.

(** ** The further theorems at concrete states *)

Lemma stopping_state_facts :
  reachable (Scenario.after Scenario.stopping_trace)
  ∧ now (Scenario.after Scenario.stopping_trace) = 3000
  ∧ containers (Scenario.after Scenario.stopping_trace) !! Scenario.id_a
    = Some 1%positive
  ∧ registry (Scenario.after Scenario.stopping_trace) !! Scenario.id_a
    = Some (set_status "stopping" (mark_running 3000 Scenario.record_a))
  ∧ registry (Scenario.after Scenario.stopping_trace) !! Scenario.id_b = None
  ∧ timers (Scenario.after Scenario.stopping_trace)
    = [(5000, StopDone 1%positive)].
Proof.
  split.
  - apply reachable_after; [repeat constructor|vm_compute; eauto].
  - vm_compute. repeat split; reflexivity.
Qed.

Lemma created_registry_facts :
  registry (Scenario.after Scenario.created_trace) !! Scenario.id_a
  = Some Scenario.record_a
  ∧ registry (Scenario.after Scenario.created_trace) !! Scenario.id_b = None.
Proof. vm_compute. split; reflexivity. Qed.

Lemma timestamps_consistent_witness :
  ∃ o,
    registry (Scenario.after Scenario.stopping_trace) !! Scenario.id_a = Some o
    ∧ createdAt o ≤ now (Scenario.after Scenario.stopping_trace)
    ∧ (∀ t1, startedAt o = Some t1 →
         createdAt o ≤ t1 ∧ t1 ≤ now (Scenario.after Scenario.stopping_trace))
    ∧ (status o = "created" → startedAt o = None ∧ stoppedAt o = None).
Proof.
  destruct stopping_state_facts as (Hs & _ & _ & Ho & _).
  eexists. split; [exact Ho|].
  destruct (timestamps_consistent (Scenario.after Scenario.stopping_trace)
              Scenario.id_a _ Hs Ho) as (H1 & H2 & _ & _ & _ & H6).
  split; [exact H1|]. split; [exact H2|exact H6].
Defined.


Lemma config_never_changes_witness :
  run [Tick 3000; Fire 0; PostStop Scenario.id_a]
    (Scenario.after Scenario.created_trace)
  = Some (Scenario.after Scenario.stopping_trace)
  ∧ ∃ o',
      registry (Scenario.after Scenario.stopping_trace) !! Scenario.id_a
      = Some o'
      ∧ status o' = "stopping"
      ∧ id o' = id Scenario.record_a ∧ name o' = name Scenario.record_a
      ∧ type o' = type Scenario.record_a
      ∧ version o' = version Scenario.record_a
      ∧ port o' = port Scenario.record_a
      ∧ ramMb o' = ramMb Scenario.record_a
      ∧ maxPlayers o' = maxPlayers Scenario.record_a
      ∧ createdAt o' = createdAt Scenario.record_a.
Proof.
  assert (run [Tick 3000; Fire 0; PostStop Scenario.id_a]
            (Scenario.after Scenario.created_trace)
          = Some (Scenario.after Scenario.stopping_trace)) as Hrun
      by (vm_compute; reflexivity).
  split; [exact Hrun|].
  destruct created_state_facts as (Hs & _).
  destruct created_registry_facts as (Ho & _).
  destruct stopping_state_facts as (_ & _ & _ & Ho' & _).
  eexists. split; [exact Ho'|]. split; [reflexivity|].
  apply (config_never_changes [Tick 3000; Fire 0; PostStop Scenario.id_a]
           (Scenario.after Scenario.created_trace)
           (Scenario.after Scenario.stopping_trace) Scenario.id_a
           Scenario.record_a _ Hs Hrun); [|exact Ho|exact Ho'].
  repeat constructor; intros body rnd H; discriminate H.
Defined.

Lemma callbacks_never_cancelled_witness :
  ∃ s' r,
    handle (DeleteServer Scenario.id_a)
      (Scenario.after Scenario.stopping_trace) = Some (s', r)
    ∧ timers s' = timers (Scenario.after Scenario.stopping_trace).
Proof.
  destruct stopping_state_facts as (Hs & _).
  destruct (request_total (DeleteServer Scenario.id_a) _ Hs) as [[s' r] Hh];
    [by intros k|].
  exists s', r. split; [exact Hh|].
  destruct (callbacks_never_cancelled _ _ _ _ Hs Hh) as (_ & Hdel & _).
  exact (Hdel Scenario.id_a eq_refl).
Defined.

Lemma get_reads_registry_witness :
  ∃ r,
    handle (GetServer Scenario.id_a) (Scenario.after Scenario.stopping_trace)
    = Some (Scenario.after Scenario.stopping_trace, Some r)
    ∧ match registry (Scenario.after Scenario.stopping_trace)
              !! Scenario.id_a with
      | Some o =>
          r = {| code := 200; body := BContainer o |} ∧ id o = Scenario.id_a
      | None => r = not_found
      end.
Proof.
  destruct stopping_state_facts as (Hs & _).
  exact (get_reads_registry (Scenario.after Scenario.stopping_trace)
           Scenario.id_a Hs).
Defined.

Lemma create_then_get_witness :
  ∃ s' o,
    o = new_container Scenario.survival_config Scenario.rnd_b 3000
    ∧ handle (PostServers Scenario.survival Scenario.rnd_b)
        (Scenario.after Scenario.stopping_trace)
      = Some (s', Some {| code := 201; body := BContainer o |})
    ∧ registry s'
      = <[Hex.encode Scenario.rnd_b := o]>
          (registry (Scenario.after Scenario.stopping_trace))
    ∧ handle (GetServer (Hex.encode Scenario.rnd_b)) s'
      = Some (s', Some {| code := 200; body := BContainer o |})
    ∧ size (containers s')
      = S (size (containers (Scenario.after Scenario.stopping_trace))).
Proof.
  destruct stopping_state_facts as (Hs & Hnow & _ & _ & Hb & _).
  destruct (create_then_get Scenario.survival Scenario.survival_config
              Scenario.rnd_b (Scenario.after Scenario.stopping_trace)
              Hs eq_refl eq_refl)
    as (s' & H1 & H2 & H3 & H4 & _).
  rewrite Hnow in H1, H2, H3.
  exists s', (new_container Scenario.survival_config Scenario.rnd_b 3000).
  split; [reflexivity|].
  split; [exact H1|]. split; [exact H2|]. split; [exact H3|].
  exact (H4 Hb).
Defined.


Lemma transition_touches_one_record_witness :
  registry (Scenario.after Scenario.created_trace) !! Scenario.id_a
  = Some Scenario.record_a
  ∧ ∃ s',
      handle (PostRestart Scenario.id_a)
        (Scenario.after Scenario.created_trace)
      = Some (s', Some (ok_message true "Server restarting"))
      ∧ registry s'
        = <[Scenario.id_a := set_status "stopping" Scenario.record_a]>
            (registry (Scenario.after Scenario.created_trace)).
Proof.
  destruct created_state_facts as (Hs & _).
  destruct created_registry_facts as (Ho & _).
  split; [exact Ho|].
  destruct (transition_touches_one_record
              (Scenario.after Scenario.created_trace) Scenario.id_a
              Scenario.record_a Hs Ho) as (_ & _ & Hrestart).
  exact Hrestart.
Defined.

Lemma unknown_id_not_found_witness :
  handle (GetServer Scenario.id_b) (Scenario.after Scenario.created_trace)
  = Some (Scenario.after Scenario.created_trace, Some not_found)
  ∧ handle (PostStart Scenario.id_b) (Scenario.after Scenario.created_trace)
    = Some (Scenario.after Scenario.created_trace, Some not_found)
  ∧ handle (PostStop Scenario.id_b) (Scenario.after Scenario.created_trace)
    = Some (Scenario.after Scenario.created_trace, Some not_found)
  ∧ handle (PostRestart Scenario.id_b) (Scenario.after Scenario.created_trace)
    = Some (Scenario.after Scenario.created_trace, Some not_found)
  ∧ handle (DeleteServer Scenario.id_b) (Scenario.after Scenario.created_trace)
    = Some (Scenario.after Scenario.created_trace, Some not_found)
  ∧ code not_found = 404.
Proof.
  destruct created_state_facts as (Hs & _).
  destruct created_registry_facts as (_ & Hb).
  exact (unknown_id_not_found (Scenario.after Scenario.created_trace)
           Scenario.id_b Hb Hs).
Defined.

Lemma ids_are_32_hex_digits_witness :
  String.length Scenario.id_a = 32%nat
  ∧ Forall is_lower_hex (String.list_ascii_of_string Scenario.id_a)
  ∧ id Scenario.record_a = Scenario.id_a.
Proof.
  destruct created_state_facts as (Hs & _).
  destruct created_registry_facts as (Ho & _).
  exact (ids_are_32_hex_digits (Scenario.after Scenario.created_trace)
           Scenario.id_a Scenario.record_a Hs Ho).
Defined.


Lemma health_counts_registry_witness :
  ∃ s' r,
    handle (DeleteServer Scenario.id_a)
      (Scenario.after Scenario.stopping_trace) = Some (s', r)
    ∧ h_containers (get_health 0 (Scenario.after Scenario.stopping_trace))
      = size (registry (Scenario.after Scenario.stopping_trace))
    ∧ h_containers (get_health 0 s') = size (registry s').
Proof.
  destruct stopping_state_facts as (Hs & _).
  destruct (request_total (DeleteServer Scenario.id_a) _ Hs) as [[s' r] Hh];
    [by intros k|].
  exists s', r. split; [exact Hh|].
  destruct (health_counts_registry _ _ _ _ 0%float Hs Hh) as (H1 & H2 & _).
  split; [exact H1|exact H2].
Defined.

(** ** Where the process ends *)

(** X19. The process ends in one way only. In a reachable state every
    request is answered and every callback returns, except one: a startup
    callback that is due and finds, under the id of the record it was
    queued for, a record whose name cannot be converted to a string. It
    throws on its log line, and nothing catches what a timer throws. *)
Theorem ends_only_by_startup_log e s :
  reachable s →
  handle e s = None ↔
  ∃ k due c o c' o',
    e = Fire k
    ∧ timers s !! k = Some (due, CreateDone c) ∧ due ≤ now s
    ∧ heap s !! c = Some o ∧ containers s !! id o = Some c'
    ∧ heap s !! c' = Some o' ∧ can_to_string (name o') = false.
Proof.
  intros Hs. split.
  - intros Hnone.
    assert (∃ k, e = Fire k) as [k ->].
    { assert ((∃ k, e = Fire k) ∨ (∀ k, e ≠ Fire k)) as [|Hnf]
          by (destruct e; try (by right); left; eauto); [done|].
      destruct (request_total e s Hs Hnf) as [x Hx]. congruence. }
    pose proof (reachable_timers_loggable s Hs) as Hlog.
    apply reachable_inv in Hs.
    simpl in Hnone. destruct (fire k s) as [s1|] eqn:Hf; [done|].
    clear Hnone. unfold fire in Hf.
    destruct (timers s !! k) as [[due t]|] eqn:Hk; [|done].
    destruct (N.leb_spec due (now s)) as [Hge|Hlt]; [|done].
    pose proof (list_elem_of_lookup_2 _ _ _ Hk) as Hin.
    destruct (inv_timers s Hs due t Hin) as [o Ho].
    set (s0 := with_timers (delete k (timers s)) s) in *.
    destruct t as [c|c|c|c|c]; simpl in Ho.
    + destruct (containers s !! id o) as [c'|] eqn:Hc'.
      * destruct (inv_registry s Hs _ _ Hc') as (o' & Ho' & _).
        destruct (can_to_string (name o')) eqn:Hn.
        -- by rewrite (run_CreateDone_found s0 c o c' o') in Hf.
        -- exists k, due, c, o, c', o'. done.
      * by rewrite (run_CreateDone_gone s0 c o) in Hf.
    + by rewrite (run_StartDone s0 c o) in Hf by (done || by eapply Hlog).
    + by rewrite (run_StopDone s0 c o) in Hf by (done || by eapply Hlog).
    + by rewrite (run_RestartMid s0 c o) in Hf.
    + by rewrite (run_RestartEnd s0 c o) in Hf by (done || by eapply Hlog).
  - intros (k & due & c & o & c' & o' & -> & Hk & Hge & Ho & Hc' & Ho' & Hn).
    simpl. rewrite (fire_due k s due _ Hk Hge).
    by rewrite (run_CreateDone_throws _ c o c' o').
Qed.

Lemma opaque_state_facts :
  reachable (Scenario.after Scenario.opaque_trace)
  ∧ handle (PostServers Scenario.opaque Scenario.rnd_a) (init 0)
    = Some (Scenario.after Scenario.opaque_trace,
            Some {| code := 500; body := BErrMessage TypeError |})
  ∧ now (Scenario.after Scenario.opaque_trace) = 0
  ∧ containers (Scenario.after Scenario.opaque_trace) !! Scenario.id_a
    = Some 1%positive
  ∧ heap (Scenario.after Scenario.opaque_trace) !! 1%positive
    = Some Scenario.record_o
  ∧ registry (Scenario.after Scenario.opaque_trace) !! Scenario.id_a
    = Some Scenario.record_o
  ∧ timers (Scenario.after Scenario.opaque_trace)
    = [(3000, CreateDone 1%positive)].
Proof.
  split.
  - apply reachable_after; [repeat constructor|vm_compute; eauto].
  - vm_compute. repeat split; reflexivity.
Qed.

Lemma ends_only_by_startup_log_witness :
  reachable (advance 3000 (Scenario.after Scenario.opaque_trace))
  ∧ handle (Fire 0) (advance 3000 (Scenario.after Scenario.opaque_trace))
    = None.
Proof.
  destruct opaque_state_facts as (Hs & _).
  assert (reachable (advance 3000 (Scenario.after Scenario.opaque_trace)))
    as Hs' by (by eapply (reachable_step (Tick 3000))).
  split; [exact Hs'|].
  apply (ends_only_by_startup_log (Fire 0) _ Hs').
  exists 0%nat, 3000, 1%positive, Scenario.record_o, 1%positive,
    Scenario.record_o.
  vm_compute. repeat split; try reflexivity. discriminate.
Defined.

(** ** Start, stop and restart of a record whose name cannot be logged *)

(** C4 fails at a record whose name cannot be converted to a string. Such a
    record is registered by a creation (which answers 500). It is not
    [running]; a start request for it sets the status to [starting], then
    throws on its log line, which is before [setTimeout]: the answer is 500,
    and the only callback pending afterwards is the startup callback of the
    creation, so no start callback will set [running]. The record is still
    [starting] just before the startup callback is due, and when that one
    runs the process ends. *)
Lemma start_throws_before_queueing :
  ∃ s1 s2,
    registry (Scenario.after Scenario.opaque_trace) !! Scenario.id_a
    = Some Scenario.record_o
    ∧ status Scenario.record_o ≠ "running"
    ∧ handle (PostStart Scenario.id_a) (Scenario.after Scenario.opaque_trace)
      = Some (s1, Some {| code := 500; body := BUncaught TypeError |})
    ∧ registry s1 !! Scenario.id_a
      = Some (set_status "starting" Scenario.record_o)
    ∧ timers s1 = [(3000, CreateDone 1%positive)]
    ∧ run [Tick 2999; Fire 0] s1 = Some s2
    ∧ registry s2 !! Scenario.id_a
      = Some (set_status "starting" Scenario.record_o)
    ∧ run [Tick 3000; Fire 0] s1 = None.
Proof.
  do 2 eexists. vm_compute. repeat split; try reflexivity. discriminate.
Qed.

(** C5 fails at a record whose name cannot be converted to a string. It is
    not [stopped]; a stop request for it sets the status to [stopping], then
    throws on its log line, which is before [setTimeout]: the answer is 500,
    and the only callback pending afterwards is the startup callback of the
    creation, so no stop callback will set [stopped]. The record is still
    [stopping] just before the startup callback is due, and when that one
    runs the process ends. *)
Lemma stop_throws_before_queueing :
  ∃ s1 s2,
    registry (Scenario.after Scenario.opaque_trace) !! Scenario.id_a
    = Some Scenario.record_o
    ∧ status Scenario.record_o ≠ "stopped"
    ∧ handle (PostStop Scenario.id_a) (Scenario.after Scenario.opaque_trace)
      = Some (s1, Some {| code := 500; body := BUncaught TypeError |})
    ∧ registry s1 !! Scenario.id_a
      = Some (set_status "stopping" Scenario.record_o)
    ∧ timers s1 = [(3000, CreateDone 1%positive)]
    ∧ run [Tick 2999; Fire 0] s1 = Some s2
    ∧ registry s2 !! Scenario.id_a
      = Some (set_status "stopping" Scenario.record_o)
    ∧ run [Tick 3000; Fire 0] s1 = None.
Proof.
  do 2 eexists. vm_compute. repeat split; try reflexivity. discriminate.
Qed.

(** C3 fails at a record whose name cannot be converted to a string. A
    restart request for it sets the status to [stopping], then throws on its
    log line, which is before [setTimeout]: the answer is 500, and the only
    callback pending afterwards is the startup callback of the creation, so
    neither restart phase will run and the record does not go on to
    [starting]. It is still [stopping] just before the startup callback is
    due, and when that one runs the process ends. *)
Lemma restart_throws_before_queueing :
  ∃ s1 s2,
    registry (Scenario.after Scenario.opaque_trace) !! Scenario.id_a
    = Some Scenario.record_o
    ∧ handle (PostRestart Scenario.id_a)
        (Scenario.after Scenario.opaque_trace)
      = Some (s1, Some {| code := 500; body := BUncaught TypeError |})
    ∧ registry s1 !! Scenario.id_a
      = Some (set_status "stopping" Scenario.record_o)
    ∧ timers s1 = [(3000, CreateDone 1%positive)]
    ∧ run [Tick 2999; Fire 0] s1 = Some s2
    ∧ registry s2 !! Scenario.id_a
      = Some (set_status "stopping" Scenario.record_o)
    ∧ run [Tick 3000; Fire 0] s1 = None.
Proof. do 2 eexists. vm_compute. repeat split; reflexivity. Qed.

(** ** A deleted id stays deleted *)

(** X15. After DELETE /api/servers/[i] (whatever it answered), the id stays
    unresolvable through any run of requests, callbacks and passing time in
    which no creation draws the bytes of [i] again: at the end GET for [i]
    answers 404 and the registry shows nothing under [i]. *)
Theorem deleted_stays_deleted es s s1 s' r i :
  reachable s → handle (DeleteServer i) s = Some (s1, r) →
  Forall (λ e, ∀ body rnd, e = PostServers body rnd → Hex.encode rnd ≠ i) es →
  run es s1 = Some s' →
  registry s' !! i = None
  ∧ handle (GetServer i) s' = Some (s', Some not_found).
Proof.
  intros _ Hdel Hes Hrun. simpl in Hdel.
  destruct (delete_server i s) as [[s2 r2]|] eqn:E; simpl in Hdel; [|done].
  injection Hdel as <- _.
  pose proof (delete_server_forgets i s s2 r2 E) as Hgone.
  pose proof (run_unknown es i s2 s' Hes Hgone Hrun) as Hnone.
  split.
  - by rewrite registry_lookup, Hnone.
  - simpl. by rewrite get_server_unknown.
Qed.

Lemma deleted_stays_deleted_witness :
  ∃ s1 r s',
    handle (DeleteServer Scenario.id_a)
      (Scenario.after Scenario.stopping_trace) = Some (s1, r)
    ∧ run [Tick 2000; Fire 0; PostStart Scenario.id_a;
           PostServers Scenario.survival Scenario.rnd_b] s1 = Some s'
    ∧ registry s' !! Scenario.id_a = None
    ∧ handle (GetServer Scenario.id_a) s' = Some (s', Some not_found).
Proof.
  destruct stopping_state_facts as (Hs & _).
  assert (∃ s1 r s',
            handle (DeleteServer Scenario.id_a)
              (Scenario.after Scenario.stopping_trace) = Some (s1, r)
            ∧ run [Tick 2000; Fire 0; PostStart Scenario.id_a;
                   PostServers Scenario.survival Scenario.rnd_b] s1 = Some s')
    as (s1 & r & s' & Hdel & Hrun)
      by (do 3 eexists; vm_compute; split; reflexivity).
  exists s1, r, s'. split; [exact Hdel|]. split; [exact Hrun|].
  apply (deleted_stays_deleted
           [Tick 2000; Fire 0; PostStart Scenario.id_a;
            PostServers Scenario.survival Scenario.rnd_b]
           (Scenario.after Scenario.stopping_trace) s1 s' r Scenario.id_a
           Hs Hdel); [|exact Hrun].
  repeat constructor; intros body rnd H; try discriminate H.
  injection H as _ <-. vm_compute. discriminate.
Defined.
